(** * xwiimote-lua: the device table, open/close and the poll-and-dispatch loop

    A shallow embedding of [xwiilua.c] (the C binding that the Pd-Lua object
    [xwii] drives) together with the two methods of the Lua object that the
    properties below mention.

    libxwiimote, poll(2) and udev are external to the repository.  They are
    modelled by a deterministic test double: an interface object carries the
    masks, the queue of decoded events and the return codes that the library
    calls will produce; the operating system side carries the enumeration
    and the results of the successive poll(2) calls. *)

From stdpp Require Import base option list gmap strings.
From Stdlib Require Import ZArith Lia.

Local Open Scope Z_scope.

(** ** Constants *)

(** [#define NDEV 10] *)
Definition NDEV : Z := 10.

(** errno.h and poll.h (Linux). *)
Definition EINTR : Z := 4.
Definition EAGAIN : Z := 11.
Definition ENODEV : Z := 19.
Definition POLLIN : Z := 1.

(** [enum xwii_event_types] of xwiimote.h. *)
Definition XWII_EVENT_KEY : Z := 0.
Definition XWII_EVENT_ACCEL : Z := 1.
Definition XWII_EVENT_IR : Z := 2.
Definition XWII_EVENT_BALANCE_BOARD : Z := 3.
Definition XWII_EVENT_MOTION_PLUS : Z := 4.
Definition XWII_EVENT_PRO_CONTROLLER_KEY : Z := 5.
Definition XWII_EVENT_PRO_CONTROLLER_MOVE : Z := 6.
Definition XWII_EVENT_WATCH : Z := 7.
Definition XWII_EVENT_CLASSIC_CONTROLLER_KEY : Z := 8.
Definition XWII_EVENT_CLASSIC_CONTROLLER_MOVE : Z := 9.
Definition XWII_EVENT_NUNCHUK_KEY : Z := 10.
Definition XWII_EVENT_NUNCHUK_MOVE : Z := 11.
Definition XWII_EVENT_DRUMS_KEY : Z := 12.
Definition XWII_EVENT_DRUMS_MOVE : Z := 13.
Definition XWII_EVENT_GUITAR_KEY : Z := 14.
Definition XWII_EVENT_GUITAR_MOVE : Z := 15.
Definition XWII_EVENT_GONE : Z := 16.

(** [enum xwii_iface_type] of xwiimote.h. *)
Definition XWII_IFACE_CORE : Z := 0x000001.
Definition XWII_IFACE_ACCEL : Z := 0x000002.
Definition XWII_IFACE_IR : Z := 0x000004.
Definition XWII_IFACE_MOTION_PLUS : Z := 0x000100.
Definition XWII_IFACE_NUNCHUK : Z := 0x000200.
Definition XWII_IFACE_CLASSIC_CONTROLLER : Z := 0x000400.
Definition XWII_IFACE_BALANCE_BOARD : Z := 0x000800.
Definition XWII_IFACE_PRO_CONTROLLER : Z := 0x001000.
Definition XWII_IFACE_DRUMS : Z := 0x002000.
Definition XWII_IFACE_GUITAR : Z := 0x004000.
Definition XWII_IFACE_ALL : Z := 0x007f07.
Definition XWII_IFACE_WRITABLE : Z := 0x010000.

(** [#define XWII_LED(num) (XWII_LED1 + (num) - 1)] with [XWII_LED1 = 1]. *)
Definition XWII_LED (num : Z) : Z := 1 + num - 1.

(** A C integer used as a condition. *)
Definition truthy (n : Z) : bool := negb (n =? 0).

(** ** Data *)

(** [struct xwii_event_abs { int32_t x, y, z; }] *)
Record xwii_event_abs := Abs { x : Z; y : Z; z : Z }.

Definition abs_zero : xwii_event_abs := Abs 0 0 0.

(** [struct xwii_event]: the type tag and the payload union.  The two members
    of the union that the binding reads, [v.key] and [v.abs[4]], are kept as
    separate fields; the binding only ever reads the member that belongs to
    the event type.  The time stamp is never read. *)
Record xwii_event := Event {
  type : Z;
  key_code : Z;
  key_state : Z;
  v_abs : list xwii_event_abs
}.

(** [a[i]] on an array of samples; entries the transport did not fill read
    as zero. *)
Definition at_ (a : list xwii_event_abs) (i : nat) : xwii_event_abs :=
  default abs_zero (a !! i).

(** [struct pollfd] *)
Record pollfd := Pollfd { fd : Z; events : Z; revents : Z }.

(** [devhandle]; [iface] is the address of the interface object (0 is NULL),
    [fds] the one-element array. *)
Record devhandle := Devhandle {
  iface : nat;
  fds_num : Z;
  fds : pollfd;
  accel : xwii_event_abs;
  motion : xwii_event_abs;
  nunchuk_accel : xwii_event_abs;
  nunchuk_stick : xwii_event_abs;
  ir : list xwii_event_abs;
  pro : list xwii_event_abs;
  board : list xwii_event_abs
}.

(** A zero-initialised entry of the static table. *)
Definition devhandle_zero : devhandle :=
  Devhandle 0 0 (Pollfd 0 0 0) abs_zero abs_zero abs_zero abs_zero
    (replicate 4 abs_zero) (replicate 2 abs_zero) (replicate 4 abs_zero).

(** Field updates of [devhandle]. *)
Definition set_iface (p : nat) (h : devhandle) : devhandle :=
  Devhandle p (fds_num h) (fds h) (accel h) (motion h) (nunchuk_accel h)
    (nunchuk_stick h) (ir h) (pro h) (board h).
Definition set_fds_num (n : Z) (h : devhandle) : devhandle :=
  Devhandle (iface h) n (fds h) (accel h) (motion h) (nunchuk_accel h)
    (nunchuk_stick h) (ir h) (pro h) (board h).
Definition set_fds (f : pollfd) (h : devhandle) : devhandle :=
  Devhandle (iface h) (fds_num h) f (accel h) (motion h) (nunchuk_accel h)
    (nunchuk_stick h) (ir h) (pro h) (board h).
Definition set_accel (a : xwii_event_abs) (h : devhandle) : devhandle :=
  Devhandle (iface h) (fds_num h) (fds h) a (motion h) (nunchuk_accel h)
    (nunchuk_stick h) (ir h) (pro h) (board h).
Definition set_motion (a : xwii_event_abs) (h : devhandle) : devhandle :=
  Devhandle (iface h) (fds_num h) (fds h) (accel h) a (nunchuk_accel h)
    (nunchuk_stick h) (ir h) (pro h) (board h).
Definition set_nunchuk_accel (a : xwii_event_abs) (h : devhandle) : devhandle :=
  Devhandle (iface h) (fds_num h) (fds h) (accel h) (motion h) a
    (nunchuk_stick h) (ir h) (pro h) (board h).
Definition set_nunchuk_stick (a : xwii_event_abs) (h : devhandle) : devhandle :=
  Devhandle (iface h) (fds_num h) (fds h) (accel h) (motion h)
    (nunchuk_accel h) a (ir h) (pro h) (board h).
Definition set_ir (i : nat) (a : xwii_event_abs) (h : devhandle) : devhandle :=
  Devhandle (iface h) (fds_num h) (fds h) (accel h) (motion h)
    (nunchuk_accel h) (nunchuk_stick h) (<[i:=a]> (ir h)) (pro h) (board h).
Definition set_pro (i : nat) (a : xwii_event_abs) (h : devhandle) : devhandle :=
  Devhandle (iface h) (fds_num h) (fds h) (accel h) (motion h)
    (nunchuk_accel h) (nunchuk_stick h) (ir h) (<[i:=a]> (pro h)) (board h).
Definition set_board (i : nat) (a : xwii_event_abs) (h : devhandle) : devhandle :=
  Devhandle (iface h) (fds_num h) (fds h) (accel h) (motion h)
    (nunchuk_accel h) (nunchuk_stick h) (ir h) (pro h) (<[i:=a]> (board h)).

(** ** The transport double *)

(** One answer of [xwii_iface_dispatch]: its return code and, when that is
    0, the event it stored. *)
Record dispatch_item := Dispatch { d_ret : Z; d_event : xwii_event }.

(** An interface object of libxwiimote.  The [_ret] fields and the two error
    maps script what the library calls return (0 is success, otherwise a
    negative errno); LEDs are keyed by their [XWII_LED] number. *)
Record xwii_iface := Iface {
  if_fd : Z;
  if_available : Z;
  if_opened : Z;
  if_open_ret : Z;
  if_watch_ret : Z;
  if_watching : bool;
  if_queue : list dispatch_item;
  if_battery_ret : Z;
  if_capacity : Z;
  if_leds : gmap Z bool;
  if_get_led_err : gmap Z Z;
  if_set_led_err : gmap Z Z;
  if_rumble_ret : Z;
  if_rumble : bool
}.

Definition set_opened (m : Z) (d : xwii_iface) : xwii_iface :=
  Iface (if_fd d) (if_available d) m (if_open_ret d) (if_watch_ret d)
    (if_watching d) (if_queue d) (if_battery_ret d) (if_capacity d)
    (if_leds d) (if_get_led_err d) (if_set_led_err d) (if_rumble_ret d)
    (if_rumble d).
Definition set_watching (b : bool) (d : xwii_iface) : xwii_iface :=
  Iface (if_fd d) (if_available d) (if_opened d) (if_open_ret d)
    (if_watch_ret d) b (if_queue d) (if_battery_ret d) (if_capacity d)
    (if_leds d) (if_get_led_err d) (if_set_led_err d) (if_rumble_ret d)
    (if_rumble d).
Definition set_queue (q : list dispatch_item) (d : xwii_iface) : xwii_iface :=
  Iface (if_fd d) (if_available d) (if_opened d) (if_open_ret d)
    (if_watch_ret d) (if_watching d) q (if_battery_ret d) (if_capacity d)
    (if_leds d) (if_get_led_err d) (if_set_led_err d) (if_rumble_ret d)
    (if_rumble d).
Definition set_leds (l : gmap Z bool) (d : xwii_iface) : xwii_iface :=
  Iface (if_fd d) (if_available d) (if_opened d) (if_open_ret d)
    (if_watch_ret d) (if_watching d) (if_queue d) (if_battery_ret d)
    (if_capacity d) l (if_get_led_err d) (if_set_led_err d) (if_rumble_ret d)
    (if_rumble d).
Definition set_rumble (b : bool) (d : xwii_iface) : xwii_iface :=
  Iface (if_fd d) (if_available d) (if_opened d) (if_open_ret d)
    (if_watch_ret d) (if_watching d) (if_queue d) (if_battery_ret d)
    (if_capacity d) (if_leds d) (if_get_led_err d) (if_set_led_err d)
    (if_rumble_ret d) b.

(** A connected device as udev presents it: its path, what [xwii_iface_new]
    returns for it, and the interface object a successful call creates. *)
Record device := Device {
  dev_path : string;
  dev_new_ret : Z;
  dev_iface : xwii_iface
}.

(** One argument of a [fprintf(stderr, ...)] call. *)
Inductive printf_arg := PInt (n : Z) | PStr (s : string).

(** The state of the process and of its environment:
    - [devh]: the static table [devh[NDEV]];
    - [heap]: the live interface objects, by address;
    - [monitor_ok], [sysfs]: whether [xwii_monitor_new] succeeds, and the
      devices an enumeration yields, in order;
    - [waits]: the (return value, errno) of the successive poll(2) calls.
      The call has no timeout and need not return; the state describes an
      execution in which each call does, with the scripted result and,
      once the script is used up, with the descriptor readable;
    - [stderr]: the lines written so far, as format and arguments. *)
Record state := State {
  devh : list devhandle;
  heap : gmap nat xwii_iface;
  monitor_ok : bool;
  sysfs : list device;
  waits : list (Z * Z);
  stderr : list (string * list printf_arg)
}.

Definition set_devh (t : list devhandle) (st : state) : state :=
  State t (heap st) (monitor_ok st) (sysfs st) (waits st) (stderr st).
Definition set_heap (m : gmap nat xwii_iface) (st : state) : state :=
  State (devh st) m (monitor_ok st) (sysfs st) (waits st) (stderr st).
Definition set_waits (w : list (Z * Z)) (st : state) : state :=
  State (devh st) (heap st) (monitor_ok st) (sysfs st) w (stderr st).
Definition fprintf (fmt : string) (args : list printf_arg) (st : state) : state :=
  State (devh st) (heap st) (monitor_ok st) (sysfs st) (waits st)
    (stderr st ++ [(fmt, args)]).

(** [devh[num-1] = h] *)
Definition store (num : Z) (h : devhandle) (st : state) : state :=
  set_devh (<[Z.to_nat (num - 1) := h]> (devh st)) st.

(** The process at start: the table is zero-initialised, nothing is live. *)
Definition boot (ok : bool) (devs : list device) (w : list (Z * Z)) : state :=
  State (replicate (Z.to_nat NDEV) devhandle_zero) ∅ ok devs w [].

(** ** Lua values *)

(** The values the binding pushes: nil, integers, strings, and tables built
    with [lua_settable] (kept as the list of their key/value pairs). *)
#[warnings="-register-all"]
Inductive lua_value :=
  | LNil
  | LInteger (n : Z)
  | LString (s : string)
  | LTable (t : list (Z * lua_value)).

(** [lua_settable] with an integer key on the table being built. *)
Definition lua_settable (t : list (Z * lua_value)) (k : Z) (v : lua_value)
  : list (Z * lua_value) :=
  if existsb (λ e, fst e =? k) t
  then map (λ e, if fst e =? k then (k, v) else e) t
  else t ++ [(k, v)].

(** ** libxwiimote and the operating system, as the double answers them *)

(** [xwii_monitor_new(false, false)] followed by [xwii_monitor_poll] until it
    returns NULL: the paths of the connected devices in enumeration order,
    or nothing when the monitor cannot be created. *)
Definition xwii_monitor_new (st : state) : option (list string) :=
  if monitor_ok st then Some (map dev_path (sysfs st)) else None.

(** [xwii_iface_new(&dev, path)]: on success a fresh object with one
    reference is allocated and its address returned. *)
Definition xwii_iface_new (path : string) (st : state) : Z * nat * state :=
  match find (λ d, String.eqb (dev_path d) path) (sysfs st) with
  | None => (- ENODEV, 0%nat, st)
  | Some d =>
    if truthy (dev_new_ret d) then (dev_new_ret d, 0%nat, st)
    else
      let p := fresh ({[0%nat]} ∪ dom (heap st)) in
      (0, p, set_heap (<[p := dev_iface d]> (heap st)) st)
  end.

(** [xwii_iface_unref]: the binding holds the only reference, so the object
    is destroyed. *)
Definition xwii_iface_unref (p : nat) (st : state) : state :=
  set_heap (delete p (heap st)) st.

(** [*p = d] for a live interface object. *)
Definition put (p : nat) (d : xwii_iface) (st : state) : state :=
  set_heap (<[p := d]> (heap st)) st.

Definition xwii_iface_available (d : xwii_iface) : Z := if_available d.
Definition xwii_iface_opened (d : xwii_iface) : Z := if_opened d.
Definition xwii_iface_get_fd (d : xwii_iface) : Z := if_fd d.

Definition xwii_iface_open (ifaces : Z) (d : xwii_iface) : Z * xwii_iface :=
  if truthy (if_open_ret d) then (if_open_ret d, d)
  else (0, set_opened (Z.lor (if_opened d) (Z.land ifaces XWII_IFACE_ALL)) d).

Definition xwii_iface_close (ifaces : Z) (d : xwii_iface) : xwii_iface :=
  set_opened (Z.land (if_opened d) (Z.lnot ifaces)) d.

Definition xwii_iface_watch (watch : bool) (d : xwii_iface) : Z * xwii_iface :=
  if truthy (if_watch_ret d) then (if_watch_ret d, d)
  else (0, set_watching watch d).

(** [xwii_iface_dispatch]: the next queued answer; [-EAGAIN] when the queue
    is empty.  The second component is the queue that remains. *)
Definition xwii_iface_dispatch (q : list dispatch_item)
  : Z * xwii_event * list dispatch_item :=
  match q with
  | [] => (- EAGAIN, Event 0 0 0 [], [])
  | i :: q' => (d_ret i, d_event i, q')
  end.

Definition xwii_iface_get_battery (d : xwii_iface) : Z * Z :=
  (if_battery_ret d, if_capacity d).

Definition xwii_iface_get_led (led : Z) (d : xwii_iface) : Z * bool :=
  (default 0 (if_get_led_err d !! led), default false (if_leds d !! led)).

(** A write that fails leaves the LED as it was. *)
Definition xwii_iface_set_led (led : Z) (flag : bool) (d : xwii_iface)
  : Z * xwii_iface :=
  let e := default 0 (if_set_led_err d !! led) in
  if truthy e then (e, d) else (0, set_leds (<[led := flag]> (if_leds d)) d).

Definition xwii_iface_rumble (on : bool) (d : xwii_iface) : Z * xwii_iface :=
  if truthy (if_rumble_ret d) then (if_rumble_ret d, d)
  else (0, set_rumble on d).


(** ** xwiilua.c *)

(** [devh[num-1]]; every function tests the range of [num] first, and the
    table has [NDEV] entries. *)
Definition dev (st : state) (num : Z) : devhandle :=
  default devhandle_zero (devh st !! Z.to_nat (num - 1)).

(** [num >= 1 && num <= NDEV && devh[num-1].fds_num] *)
Definition is_open (st : state) (num : Z) : bool :=
  (1 <=? num) && (num <=? NDEV) && truthy (fds_num (dev st num)).

(** [fds[0].revents = r] *)
Definition set_revents (r : Z) (h : devhandle) : devhandle :=
  set_fds (Pollfd (fd (fds h)) (events (fds h)) r) h.

(** [poll(devh[num-1].fds, devh[num-1].fds_num, -1)], for the one registered
    descriptor: the next scripted (return value, errno).  A call that does
    not fail stores the result for the descriptor in its [revents]: the
    descriptor is registered for [POLLIN] alone, which is what a call that
    reports it ready stores. *)
Definition sys_poll (st : state) (num : Z) : Z * Z * state :=
  let '(r, e, st1) :=
    match waits st with
    | [] => (1, 0, st)
    | (r, e) :: w => (r, e, set_waits w st)
    end in
  if r <? 0 then (r, e, st1)
  else (r, e, store num (set_revents (if 0 <? r then POLLIN else 0) (dev st1 num)) st1).

(** The [while] loop of [l_xwii_list], [i] being the count so far. *)
Fixpoint list_loop (mon : list string) (i : Z) (t : list (Z * lua_value))
  : list (Z * lua_value) :=
  match mon with
  | [] => t
  | ent :: mon' => list_loop mon' (i + 1) (lua_settable t (i + 1) (LString ent))
  end.

(** The results are the values the C function leaves for Lua: [return 0]
    gives none, [return 1] the one value pushed last. *)
Definition l_xwii_list (st : state) : list lua_value * state :=
  match xwii_monitor_new st with
  | None => ([], fprintf "xwii_list: cannot create monitor\n" [] st)
  | Some mon => ([LTable (list_loop mon 0 [])], st)
  end.

(** The [while] loop of [get_dev]. *)
Fixpoint get_dev_loop (mon : list string) (i num : Z) : option string :=
  match mon with
  | [] => None
  | ent :: mon' => if i + 1 =? num then Some ent else get_dev_loop mon' (i + 1) num
  end.

Definition get_dev (st : state) (num : Z) : option string :=
  match xwii_monitor_new st with
  | None => None
  | Some mon => get_dev_loop mon 0 num
  end.

(** [None] as a result of the functions below stands for a dereference of an
    interface pointer that is not live, which C leaves undefined. *)
Definition l_xwii_open (st : state) (num : Z) : option (list lua_value * state) :=
  match (if (num <? 1) || (NDEV <? num) then None else get_dev st num) with
  | None =>
    Some ([LInteger 0], fprintf "xwii_open: cannot find device #%d\n" [PInt num] st)
  | Some path =>
    if truthy (fds_num (dev st num)) then Some ([LInteger 0], st)
    else
      let '(ret, p, st1) := xwii_iface_new path st in
      if truthy ret then
        Some ([LInteger 0],
              fprintf "xwii_open: cannot create xwii_iface '%s' err:%d\n"
                [PStr path; PInt ret] st1)
      else
        let st2 := store num (set_iface p (dev st1 num)) st1 in
        d ← heap st2 !! iface (dev st2 num);
        let '(ret, d1) :=
          xwii_iface_open (Z.lor (xwii_iface_available d) XWII_IFACE_WRITABLE) d in
        let st3 := put (iface (dev st2 num)) d1 st2 in
        if truthy ret then
          let st4 :=
            fprintf "xwii_open: cannot open interface '%s' err: %d\n"
              [PStr path; PInt ret] st3 in
          Some ([LInteger 0], xwii_iface_unref (iface (dev st4 num)) st4)
        else
          let '(ret, d2) := xwii_iface_watch true d1 in
          let st4 := put (iface (dev st3 num)) d2 st3 in
          let st5 :=
            if truthy ret then
              fprintf "xwii_open: cannot initialize hotplug watch descriptor on interface '%s' err: %d\n"
                [PStr path; PInt ret] st4
            else st4 in
          let h := dev st5 num in
          let h := set_accel abs_zero h in
          let h := set_motion abs_zero h in
          let h := set_nunchuk_accel abs_zero h in
          let h := set_nunchuk_stick abs_zero h in
          let h := set_fds (Pollfd 0 0 0) h in
          let h := set_fds (Pollfd (xwii_iface_get_fd d2) (events (fds h)) (revents (fds h))) h in
          let h := set_fds (Pollfd (fd (fds h)) POLLIN (revents (fds h))) h in
          let h := set_fds_num 1 h in
          Some ([LInteger num], store num h st5)
  end.

Definition l_xwii_close (st : state) (num : Z) : option (list lua_value * state) :=
  if is_open st num then
    let h := dev st num in
    d ← heap st !! iface h;
    let st1 := put (iface h) (xwii_iface_close (xwii_iface_opened d) d) st in
    let st2 := xwii_iface_unref (iface h) st1 in
    Some ([], store num (set_fds_num 0 (dev st2 num)) st2)
  else Some ([], st).

Definition l_xwii_info (st : state) (num : Z) : option (list lua_value * state) :=
  if is_open st num then
    d ← heap st !! iface (dev st num);
    Some ([LInteger (xwii_iface_available d)], st)
  else Some ([LInteger 0], st).

Definition l_xwii_get_battery (st : state) (num : Z) : option (list lua_value * state) :=
  if is_open st num then
    d ← heap st !! iface (dev st num);
    let '(ret, capacity) := xwii_iface_get_battery d in
    if truthy ret then
      Some ([LNil], fprintf "xwii_get_battery: cannot read battery capacity\n" [] st)
    else Some ([LInteger capacity], st)
  else Some ([LInteger 0], st).

(** The [for] loop of [l_xwii_get_leds] over the remaining indices [ix],
    with the current [ret] and [mask]. *)
Fixpoint get_leds_loop (ix : list Z) (d : xwii_iface) (ret mask : Z) : Z * Z :=
  match ix with
  | [] => (ret, mask)
  | i :: ix' =>
    if truthy ret then (ret, mask)
    else
      let '(ret, flag) := xwii_iface_get_led (XWII_LED (i + 1)) d in
      get_leds_loop ix' d ret
        (if negb (truthy ret) && flag then Z.lor mask (Z.shiftl 1 i) else mask)
  end.

Definition l_xwii_get_leds (st : state) (num : Z) : option (list lua_value * state) :=
  if is_open st num then
    d ← heap st !! iface (dev st num);
    let '(ret, mask) := get_leds_loop (seqZ 0 4) d 0 0 in
    if truthy ret then
      Some ([LNil], fprintf "xwii_get_leds: cannot read LED state\n" [] st)
    else Some ([LInteger mask], st)
  else Some ([LInteger 0], st).

(** The [for] loop of [l_xwii_set_leds]; the first component is the return
    code of the write that made it return early, 0 when all were made. *)
Fixpoint set_leds_loop (ix : list Z) (mask : Z) (d : xwii_iface) : Z * xwii_iface :=
  match ix with
  | [] => (0, d)
  | i :: ix' =>
    let flag := truthy (Z.land mask (Z.shiftl 1 i)) in
    let '(ret, d1) := xwii_iface_set_led (XWII_LED (i + 1)) flag d in
    if truthy ret then (ret, d1) else set_leds_loop ix' mask d1
  end.

(** [(uint8_t)x] for a number [x] without fraction.  C defines the
    conversion for 0..255 only, where it gives [x].  Elsewhere the value is
    the one of the x86-64 build, which converts through a 32-bit [int] and
    keeps the low byte: 0 as soon as [x] does not fit in 32 bits.  The
    statements on the values written take the mask in 0..255. *)
Definition to_uint8 (x : Z) : Z :=
  if (- 2 ^ 31 <=? x) && (x <? 2 ^ 31) then x `mod` 256 else 0.

Definition l_xwii_set_leds (st : state) (num : Z) (mask : Z)
  : option (list lua_value * state) :=
  let mask := to_uint8 mask in
  if is_open st num then
    let p := iface (dev st num) in
    d ← heap st !! p;
    let '(ret, d1) := set_leds_loop (seqZ 0 4) mask d in
    if truthy ret then
      Some ([], fprintf "xwii_set_leds: cannot write LED state\n" [] (put p d1 st))
    else Some ([], put p d1 st)
  else Some ([], st).

Definition l_xwii_rumble (st : state) (num : Z) (flag : Z)
  : option (list lua_value * state) :=
  if is_open st num then
    let p := iface (dev st num) in
    d ← heap st !! p;
    let '(ret, d1) := xwii_iface_rumble (truthy flag) d in
    if truthy ret then
      Some ([], fprintf "xwii_rumble: cannot set rumble motor state\n" [] (put p d1 st))
    else Some ([], put p d1 st)
  else Some ([], st).

(** What the dispatch loop of [l_xwii_poll] works on: the table entry
    [devh[num-1]], the interface object it points to, and stderr. *)
Record session := Session {
  s_dev : devhandle;
  s_iface : xwii_iface;
  s_err : list (string * list printf_arg)
}.

Definition log (fmt : string) (args : list printf_arg) (s : session) : session :=
  Session (s_dev s) (s_iface s) (s_err s ++ [(fmt, args)]).
Definition on_dev (f : devhandle → devhandle) (s : session) : session :=
  Session (f (s_dev s)) (s_iface s) (s_err s).
Definition on_iface (f : xwii_iface → xwii_iface) (s : session) : session :=
  Session (s_dev s) (f (s_iface s)) (s_err s).

(** How one pass through the [switch] ends: with a [return] of the values
    pushed, or with a [break] that goes round the [while] loop again. *)
Inductive outcome :=
  | Return (vs : list lua_value) (s : session)
  | Break (s : session).

(** The six [case] labels that share the key-event block. *)
Definition key_case (t : Z) : bool :=
  (t =? XWII_EVENT_KEY) || (t =? XWII_EVENT_CLASSIC_CONTROLLER_KEY)
  || (t =? XWII_EVENT_PRO_CONTROLLER_KEY) || (t =? XWII_EVENT_NUNCHUK_KEY)
  || (t =? XWII_EVENT_DRUMS_KEY) || (t =? XWII_EVENT_GUITAR_KEY).

(** The [switch (event.type)] of [l_xwii_poll]. *)
Definition on_event (num : Z) (event : xwii_event) (s : session) : outcome :=
  let t := type event in
  if key_case t then
    let tbl := lua_settable [] 1 (LInteger (key_code event)) in
    let tbl := lua_settable tbl 2 (LInteger (key_state event)) in
    Return [LTable tbl] s
  else if t =? XWII_EVENT_WATCH then
    let '(ret, d) :=
      xwii_iface_open (xwii_iface_available (s_iface s)) (s_iface s) in
    let s := on_iface (λ _, d) s in
    if truthy ret then
      Break (log "xwii_poll: cannot open interface #%d err: %d\n" [PInt num; PInt ret] s)
    else
      Break (log "xwii_poll: hotplug event on interface #%d\n" [PInt num] s)
  else if t =? XWII_EVENT_GONE then
    let s := on_dev (λ h, set_fds (Pollfd (-1) (events (fds h)) (revents (fds h))) h) s in
    let s := on_dev (λ h, set_fds (Pollfd (fd (fds h)) 0 (revents (fds h))) h) s in
    let s := on_dev (set_fds_num 0) s in
    let s := log "xwii_poll: device #%d was removed\n" [PInt num] s in
    Return [LInteger (type event)] s
  else if t =? XWII_EVENT_ACCEL then
    Break (on_dev (set_accel (at_ (v_abs event) 0)) s)
  else if t =? XWII_EVENT_IR then
    Break (on_dev (λ h, foldl (λ h i, set_ir i (at_ (v_abs event) i) h) h (seq 0 4)) s)
  else if t =? XWII_EVENT_BALANCE_BOARD then
    Break (on_dev (λ h, foldl (λ h i, set_board i (at_ (v_abs event) i) h) h (seq 0 4)) s)
  else if (t =? XWII_EVENT_CLASSIC_CONTROLLER_MOVE) || (t =? XWII_EVENT_PRO_CONTROLLER_MOVE) then
    let s := on_dev (set_pro 0 (at_ (v_abs event) 0)) s in
    Break (on_dev (set_pro 1 (at_ (v_abs event) 1)) s)
  else if t =? XWII_EVENT_MOTION_PLUS then
    Break (on_dev (set_motion (at_ (v_abs event) 0)) s)
  else if t =? XWII_EVENT_NUNCHUK_MOVE then
    let s := on_dev (set_nunchuk_accel (at_ (v_abs event) 1)) s in
    Break (on_dev (set_nunchuk_stick (at_ (v_abs event) 0)) s)
  else Break s.

(** The [while (1)] loop of [l_xwii_poll].  [q] is the pending queue of the
    interface, passed along so that the recursion is on it; each
    [xwii_iface_dispatch] takes its head and stores what remains.  On an
    empty queue the call returns [-EAGAIN], so the last [match] never meets
    the empty case. *)
Fixpoint dispatch_loop (num : Z) (q : list dispatch_item) (s : session)
  : list lua_value * session :=
  let '(ret, event, q1) := xwii_iface_dispatch q in
  let s := on_iface (set_queue q1) s in
  if truthy ret then
    ([LNil],
     if negb (ret =? - EAGAIN)
     then log "xwii_poll: read failed err:%d\n" [PInt ret] s else s)
  else
    match on_event num event s with
    | Return vs s' => (vs, s')
    | Break s' =>
      match q with
      | [] => ([LNil], s')
      | _ :: q' => dispatch_loop num q' s'
      end
    end.

Definition l_xwii_poll (st : state) (num : Z) : option (list lua_value * state) :=
  if is_open st num then
    let '(ret, errno, st1) := sys_poll st num in
    if ret <? 0 then
      Some ([LNil],
            if negb (errno =? EINTR)
            then fprintf "xwii_poll: cannot poll fds err:%d\n" [PInt (- errno)] st1
            else st1)
    else
      let p := iface (dev st1 num) in
      d ← heap st1 !! p;
      let '(vs, s) := dispatch_loop num (if_queue d) (Session (dev st1 num) d (stderr st1)) in
      Some (vs,
            State (<[Z.to_nat (num - 1) := s_dev s]> (devh st1))
              (<[p := s_iface s]> (heap st1))
              (monitor_ok st1) (sysfs st1) (waits st1) (s_err s))
  else Some ([LNil], st).

Definition push_xyz (abs : xwii_event_abs) : lua_value :=
  let t := lua_settable [] 1 (LInteger (x abs)) in
  let t := lua_settable t 2 (LInteger (y abs)) in
  let t := lua_settable t 3 (LInteger (z abs)) in
  LTable t.

Definition push_xy (abs : xwii_event_abs) : lua_value :=
  let t := lua_settable [] 1 (LInteger (x abs)) in
  let t := lua_settable t 2 (LInteger (y abs)) in
  LTable t.

(** The table of [n] (x, y) pairs that [l_xwii_ir] and [l_xwii_pro_stick]
    build from an array of the table entry. *)
Definition push_pairs (n : nat) (a : list xwii_event_abs) : lua_value :=
  LTable
    (foldl
       (λ t i,
          let t := lua_settable t (2 * Z.of_nat i + 1) (LInteger (x (at_ a i))) in
          lua_settable t (2 * Z.of_nat i + 2) (LInteger (y (at_ a i))))
       [] (seq 0 n)).

Definition l_xwii_accel (st : state) (num : Z) : option (list lua_value * state) :=
  if is_open st num then
    d ← heap st !! iface (dev st num);
    if truthy (Z.land (xwii_iface_opened d) XWII_IFACE_CORE)
    then Some ([push_xyz (accel (dev st num))], st)
    else Some ([LNil], st)
  else Some ([LNil], st).

Definition l_xwii_ir (st : state) (num : Z) : option (list lua_value * state) :=
  if is_open st num then
    d ← heap st !! iface (dev st num);
    if truthy (Z.land (xwii_iface_opened d) XWII_IFACE_CORE)
    then Some ([push_pairs 4 (ir (dev st num))], st)
    else Some ([LNil], st)
  else Some ([LNil], st).

Definition l_xwii_motion_plus (st : state) (num : Z) : option (list lua_value * state) :=
  if is_open st num then
    d ← heap st !! iface (dev st num);
    if truthy (Z.land (xwii_iface_opened d) XWII_IFACE_MOTION_PLUS)
    then Some ([push_xyz (motion (dev st num))], st)
    else Some ([LNil], st)
  else Some ([LNil], st).

Definition l_xwii_nunchuk_accel (st : state) (num : Z) : option (list lua_value * state) :=
  if is_open st num then
    d ← heap st !! iface (dev st num);
    if truthy (Z.land (xwii_iface_opened d) XWII_IFACE_NUNCHUK)
    then Some ([push_xyz (nunchuk_accel (dev st num))], st)
    else Some ([LNil], st)
  else Some ([LNil], st).

Definition l_xwii_nunchuk_stick (st : state) (num : Z) : option (list lua_value * state) :=
  if is_open st num then
    d ← heap st !! iface (dev st num);
    if truthy (Z.land (xwii_iface_opened d) XWII_IFACE_NUNCHUK)
    then Some ([push_xy (nunchuk_stick (dev st num))], st)
    else Some ([LNil], st)
  else Some ([LNil], st).

Definition l_xwii_pro_stick (st : state) (num : Z) : option (list lua_value * state) :=
  if is_open st num then
    d ← heap st !! iface (dev st num);
    if truthy (Z.land (xwii_iface_opened d) XWII_IFACE_CORE)
    then Some ([push_pairs 2 (pro (dev st num))], st)
    else Some ([LNil], st)
  else Some ([LNil], st).

Definition l_xwii_board (st : state) (num : Z) : option (list lua_value * state) :=
  if is_open st num then
    d ← heap st !! iface (dev st num);
    if truthy (Z.land (xwii_iface_opened d) XWII_IFACE_CORE)
    then
      Some ([LTable
               (foldl
                  (λ t i, lua_settable t (Z.of_nat i + 1)
                            (LInteger (x (at_ (board (dev st num)) i))))
                  [] (seq 0 4))], st)
    else Some ([LNil], st)
  else Some ([LNil], st).

(** ** The Pd-Lua object (the methods of [xwii] used below) *)

(** A Lua call either completes or raises an error. *)
Inductive lua_result (A : Type) :=
  | Done (a : A)
  | Raised (msg : string).
Arguments Done {A} a.
Arguments Raised {A} msg.

(** [self:outlet(n, sel, atoms)] *)
Record outlet_msg := Outlet { o_outlet : Z; o_sel : string; o_atoms : lua_value }.

(** [local t = f(...)]: the first result, nil when there is none. *)
Definition first_result (vs : list lua_value) : lua_value :=
  match vs with
  | [] => LNil
  | v :: _ => v
  end.

(** The length operator [#v]: defined on strings and tables, an error on the
    other values the binding produces. *)
Definition lua_len (v : lua_value) : option Z :=
  match v with
  | LTable t => Some (Z.of_nat (length t))
  | LString s => Some (Z.of_nat (String.length s))
  | _ => None
  end.

(** [xwii:in_1_devlist()] *)
Definition in_1_devlist (st : state) : lua_result (list outlet_msg) * state :=
  let '(vs, st1) := l_xwii_list st in
  let t := first_result vs in
  match lua_len t with
  | None => (Raised "attempt to get length of a nil value (local 't')", st1)
  | Some n => if 0 <? n then (Done [Outlet 2 "devlist" t], st1) else (Done [], st1)
  end.

(** [xwii:in_1_board()], [d] being [self.d]. *)
Definition in_1_board (st : state) (d : Z) : option (list outlet_msg * state) :=
  '(vs, st1) ← l_xwii_pro_stick st d;
  let t := first_result vs in
  match t with
  | LNil => Some ([], st1)
  | _ => Some ([Outlet 2 "board" t], st1)
  end.

(** ** Vocabulary of the statements *)

(** The table [{code, state}] that a key event is returned as. *)
Definition key_table (event : xwii_event) : lua_value :=
  LTable [(1, LInteger (key_code event)); (2, LInteger (key_state event))].

(** A queued answer that decodes to a discrete key event. *)
Definition is_key (i : dispatch_item) : bool :=
  negb (truthy (d_ret i)) && key_case (type (d_event i)).

(** A queued answer that decodes to an event the loop absorbs and goes on
    from: a motion sample, a hotplug notification or an event kind the
    binding ignores. *)
Definition passes (i : dispatch_item) : bool :=
  negb (truthy (d_ret i)) && negb (key_case (type (d_event i)))
  && negb (type (d_event i) =? XWII_EVENT_GONE).

(** The effect of one absorbed event on the session. *)
Definition absorb (num : Z) (s : session) (i : dispatch_item) : session :=
  match on_event num (d_event i) s with
  | Return _ s' => s'
  | Break s' => s'
  end.

(** [n] calls of [xw.xwii_poll(num)] in a row, with the result of each. *)
Fixpoint polls (n : nat) (st : state) (num : Z) : option (list (list lua_value) * state) :=
  match n with
  | O => Some ([], st)
  | S n' =>
    '(vs, st1) ← l_xwii_poll st num;
    '(rest, st2) ← polls n' st1 num;
    Some (vs :: rest, st2)
  end.

(** The key events of a queue, in order. *)
Definition keys (q : list dispatch_item) : list dispatch_item :=
  List.filter is_key q.

(** Every scripted poll(2) reports readiness. *)
Definition ready (w : list (Z * Z)) : Prop := Forall (λ r, 0 ≤ r.1) w.

(** A burst: decoded key events among events that the loop absorbs. *)
Definition burst (q : list dispatch_item) : bool :=
  forallb (λ i, is_key i || passes i) q.

(** The state [l_xwii_poll] leaves when the loop ends in session [s]. *)
Definition commit (st : state) (num : Z) (w : list (Z * Z)) (s : session) : state :=
  State (<[Z.to_nat (num - 1) := s_dev s]> (devh st))
    (<[iface (dev st num) := s_iface s]> (heap st))
    (monitor_ok st) (sysfs st) w (s_err s).

(** Why a call of [l_xwii_open] fails. *)
Inductive open_error :=
  | BadIndex
  | NoDevice
  | AlreadyOpen
  | NewFailed
  | OpenFailed.

(** The conditions under which each failure arises, in terms of the call's
    argument, the table and the environment: the index is out of range; the
    monitor cannot be created or enumerates fewer than [num] devices; the
    slot is open; [xwii_iface_new] fails on the [num]-th device; or
    [xwii_iface_open] fails on the object just created. *)
Definition open_fails (st : state) (num : Z) (e : open_error) : Prop :=
  match e with
  | BadIndex => num < 1 ∨ NDEV < num
  | NoDevice => monitor_ok st = false ∨ Z.of_nat (length (sysfs st)) < num
  | AlreadyOpen => is_open st num = true
  | NewFailed =>
    1 ≤ num ≤ NDEV ∧ is_open st num = false
    ∧ ∃ path, get_dev st num = Some path ∧ (xwii_iface_new path st).1.1 ≠ 0
  | OpenFailed =>
    1 ≤ num ≤ NDEV ∧ is_open st num = false
    ∧ ∃ path dv,
        get_dev st num = Some path
        ∧ find (λ d, String.eqb (dev_path d) path) (sysfs st) = Some dv
        ∧ dev_new_ret dv = 0
        ∧ if_open_ret (dev_iface dv) ≠ 0
  end.

(** ** Sample devices and sessions *)

Definition hid1 : string := "/sys/bus/hid/devices/0005:057E:0306.0001".

Definition ev_key (c s : Z) : dispatch_item :=
  Dispatch 0 (Event XWII_EVENT_KEY c s []).
Definition ev_abs (t : Z) (a : list xwii_event_abs) : dispatch_item :=
  Dispatch 0 (Event t 0 0 a).
Definition ev_plain (t : Z) : dispatch_item := Dispatch 0 (Event t 0 0 []).

(** An interface object with [opened] open of [avail], queue [q], battery at
    80 and no scripted failure. *)
Definition remote (avail opened : Z) (q : list dispatch_item) : xwii_iface :=
  Iface 7 avail opened 0 0 true q 0 80 ∅ ∅ ∅ 0 false.

(** A process whose slot 1 is open on the object [d] at address 1. *)
Definition running (d : xwii_iface) (w : list (Z * Z)) : state :=
  State
    (<[0%nat := set_fds_num 1 (set_fds (Pollfd 7 POLLIN 0) (set_iface 1 devhandle_zero))]>
       (replicate (Z.to_nat NDEV) devhandle_zero))
    {[1%nat := d]} true [Device hid1 0 d] w [].

(** Five key events among motion samples and a hotplug notification. *)
Definition burst5 : list dispatch_item :=
  [ev_abs XWII_EVENT_ACCEL [Abs 1 2 3]; ev_key 4 1; ev_key 4 0;
   ev_abs XWII_EVENT_IR [Abs 10 20 0; Abs 30 40 0]; ev_key 5 1;
   ev_plain XWII_EVENT_WATCH; ev_key 5 0; ev_key 2 1;
   ev_abs XWII_EVENT_MOTION_PLUS [Abs 7 8 9]].

(** A removal queued behind a motion sample and in front of a key event. *)
Definition gone_queue : list dispatch_item :=
  [ev_abs XWII_EVENT_ACCEL [Abs 1 2 3]; ev_plain XWII_EVENT_GONE; ev_key 4 1].

(** A plain Wii Remote: core, accelerometer and IR camera, nothing
    plugged in. *)
Definition plain_remote : xwii_iface :=
  remote (Z.lor XWII_IFACE_CORE (Z.lor XWII_IFACE_ACCEL XWII_IFACE_IR))
    (Z.lor XWII_IFACE_CORE (Z.lor XWII_IFACE_ACCEL XWII_IFACE_IR)) [].

(** The four weights of one balance-board event. *)
Definition weights : dispatch_item :=
  ev_abs XWII_EVENT_BALANCE_BOARD [Abs 10 0 0; Abs 20 0 0; Abs 30 0 0; Abs 40 0 0].

(** A Balance Board: its only input interface is its own. *)
Definition balance_board : xwii_iface :=
  remote XWII_IFACE_BALANCE_BOARD XWII_IFACE_BALANCE_BOARD [weights].

(** An object on which both the core and the balance-board interface are
    open. *)
Definition core_and_board : xwii_iface :=
  remote (Z.lor XWII_IFACE_CORE XWII_IFACE_BALANCE_BOARD)
    (Z.lor XWII_IFACE_CORE XWII_IFACE_BALANCE_BOARD) [weights].

(** An interface object whose [xwii_iface_open] fails with -EACCES. *)
Definition locked_remote : xwii_iface :=
  Iface 7 7 0 (-13) 0 false [] 0 80 ∅ ∅ ∅ 0 false.

(** A Wii Remote with a Classic Controller plugged in, about to deliver one
    accelerometer sample, one IR frame and one joystick sample. *)
Definition remote_with_classic : xwii_iface :=
  Iface 7 0x407 0 0 0 false
    [ev_abs XWII_EVENT_ACCEL [Abs 1 2 3];
     ev_abs XWII_EVENT_IR [Abs 10 20 0; Abs 30 40 0; Abs 50 60 0; Abs 70 80 0];
     ev_abs XWII_EVENT_CLASSIC_CONTROLLER_MOVE [Abs 5 6 0; Abs 7 8 0]]
    0 80 ∅ ∅ ∅ 0 false.

(** An object whose LED 3 refuses writes with -EACCES; LEDs 1 and 4 are lit. *)
Definition led3_locked : xwii_iface :=
  Iface 7 7 7 0 0 true [] 0 80
    {[1 := true; 2 := false; 3 := false; 4 := true]} ∅ {[3 := -13]} 0 false.

(** An object whose battery and LED 2 cannot be read. *)
Definition unreadable : xwii_iface :=
  Iface 7 7 7 0 0 true [] (-5) 0 {[1 := true]} {[2 := -5]} ∅ 0 false.

(** An object whose battery reads 0 and whose LEDs are all off. *)
Definition flat_and_dark : xwii_iface :=
  Iface 7 7 7 0 0 true [] 0 0 ∅ ∅ ∅ 0 false.

(** ** The Pd-Lua object: polling and lifecycle *)

(** The fields of the object that its methods use: [self.dev],
    [self.period], [self.d], and the clock, kept as the delay it is armed
    with ([None] when it is not armed). *)
Record xwii := Xwii {
  self_dev : Z;
  self_period : Z;
  self_d : Z;
  self_clock : option Z
}.

Definition set_self_d (d : Z) (self : xwii) : xwii :=
  Xwii (self_dev self) (self_period self) d (self_clock self).
Definition set_self_clock (c : option Z) (self : xwii) : xwii :=
  Xwii (self_dev self) (self_period self) (self_d self) c.

(** The table constructor [{f}]: a nil value leaves the table empty. *)
Definition lua_table1 (f : lua_value) : lua_value :=
  match f with
  | LNil => LTable []
  | _ => LTable [(1, f)]
  end.

(** The [while] loop of [xwii:tick()].  [self.d] does not change in the
    loop.  [fuel] bounds the number of turns; the loop running out of it
    gives [None], like undefined behaviour. *)
Fixpoint tick_loop (fuel : nat) (st : state) (d : Z)
  : option (list outlet_msg * state) :=
  if 0 <? d then
    match fuel with
    | O => None
    | S fuel' =>
      '(vs, st1) ← l_xwii_poll st d;
      match first_result vs with
      | LNil => Some ([], st1)
      | ev =>
        '(out, st2) ← tick_loop fuel' st1 d;
        Some (Outlet 1 "list" ev :: out, st2)
      end
    end
  else Some ([], st).

(** [xwii:tick()] *)
Definition tick (fuel : nat) (st : state) (self : xwii)
  : option (list outlet_msg * xwii * state) :=
  '(out, st1) ← tick_loop fuel st (self_d self);
  Some (out, set_self_clock (Some (self_period self)) self, st1).

(** [xwii:in_1_bang()].  [xwii_open] answers an integer on every path, so
    the last case of the [match] is never met. *)
Definition in_1_bang (fuel : nat) (st : state) (self : xwii)
  : option (list outlet_msg * xwii * state) :=
  '(vs, st1) ← l_xwii_open st (self_dev self);
  match first_result vs with
  | LInteger d => tick fuel st1 (set_self_d d self)
  | _ => None
  end.

(** [xwii:in_1_float(f)]; the number [f] is only compared with 0. *)
Definition in_1_float (fuel : nat) (st : state) (self : xwii) (f : Z)
  : option (list outlet_msg * xwii * state) :=
  if negb (f =? 0) then
    '(vs, st1) ← l_xwii_open st (self_dev self);
    match first_result vs with
    | LInteger d => tick fuel st1 (set_self_d d self)
    | _ => None
    end
  else
    let self := set_self_clock None self in
    '(_, st1) ← l_xwii_close st (self_d self);
    Some ([], set_self_d 0 self, st1).

(** [xwii:finalize()] *)
Definition finalize (st : state) (self : xwii) : option (xwii * state) :=
  let self := set_self_clock None self in
  '(_, st1) ← l_xwii_close st (self_d self);
  Some (self, st1).

(** [xwii:in_1_info()], [d] being [self.d]. *)
Definition in_1_info (st : state) (d : Z) : option (list outlet_msg * state) :=
  if 0 <? d then
    '(vs, st1) ← l_xwii_info st d;
    Some ([Outlet 2 "info" (lua_table1 (first_result vs))], st1)
  else Some ([], st).

(** [xwii:in_1_battery()], [d] being [self.d]. *)
Definition in_1_battery (st : state) (d : Z) : option (list outlet_msg * state) :=
  if 0 <? d then
    '(vs, st1) ← l_xwii_get_battery st d;
    Some ([Outlet 2 "battery" (lua_table1 (first_result vs))], st1)
  else Some ([], st).

(** ** Vocabulary of the further statements *)

(** The table is sound: it has [NDEV] entries, every open slot points to a
    live interface object, and no two open slots point to the same one. *)
Definition sound (st : state) : Prop :=
  length (devh st) = Z.to_nat NDEV
  ∧ (∀ i h, devh st !! i = Some h → fds_num h ≠ 0 → is_Some (heap st !! iface h))
  ∧ (∀ i j hi hj,
       devh st !! i = Some hi → devh st !! j = Some hj →
       fds_num hi ≠ 0 → fds_num hj ≠ 0 → iface hi = iface hj → i = j).

(** How a drain ends: the queue ran empty, a read failed with a return
    code, a key event was met, or the device was reported gone. *)
Inductive stop :=
  | Drained
  | Failed (ret : Z)
  | Key (event : xwii_event)
  | Gone.

(** The first queued answer that the loop does not absorb, and the queue
    behind it. *)
Fixpoint first_stop (q : list dispatch_item) : stop * list dispatch_item :=
  match q with
  | [] => (Drained, [])
  | i :: q' =>
    if truthy (d_ret i) then (Failed (d_ret i), q')
    else if key_case (type (d_event i)) then (Key (d_event i), q')
    else if type (d_event i) =? XWII_EVENT_GONE then (Gone, q')
    else first_stop q'
  end.

(** What the caller of [l_xwii_poll] receives for each way of stopping. *)
Definition stop_value (e : stop) : lua_value :=
  match e with
  | Drained => LNil
  | Failed _ => LNil
  | Key event => key_table event
  | Gone => LInteger XWII_EVENT_GONE
  end.

(** The sample [abs[k]] of the last event of type [t] in a queue, [a] when
    there is none. *)
Definition last_sample (t : Z) (k : nat) (a : xwii_event_abs)
  (q : list dispatch_item) : xwii_event_abs :=
  foldl (λ a i, if type (d_event i) =? t then at_ (v_abs (d_event i)) k else a) a q.

(** Whether LED [led] of an interface object is lit. *)
Definition lit (d : xwii_iface) (led : Z) : bool :=
  default false (if_leds d !! led).

(** The LEDs of an interface object as a bitmask, LED 1 in bit 0. *)
Definition led_mask (d : xwii_iface) : Z :=
  Z.b2z (lit d 1) + 2 * Z.b2z (lit d 2) + 4 * Z.b2z (lit d 3) + 8 * Z.b2z (lit d 4).

(** A sound process with two slots open, on objects at addresses 1 and 2. *)
Definition two_open (d1 d2 : xwii_iface) : state :=
  State
    (<[1%nat := set_fds_num 1 (set_fds (Pollfd 8 POLLIN 0) (set_iface 2 devhandle_zero))]>
       (devh (running d1 [])))
    {[1%nat := d1; 2%nat := d2]} true
    [Device hid1 0 d1; Device "/sys/bus/hid/devices/0005:057E:0306.0002" 0 d2] [] [].

(** The interface object that a successful [l_xwii_open] leaves for a device
    whose fresh object is [d0]: every available interface is open, and the
    hotplug watch is armed unless arming it failed. *)
Definition opened_object (d0 : xwii_iface) : xwii_iface :=
  let d1 :=
    set_opened
      (Z.lor (if_opened d0)
         (Z.land (Z.lor (if_available d0) XWII_IFACE_WRITABLE) XWII_IFACE_ALL)) d0 in
  if truthy (if_watch_ret d1) then d1 else set_watching true d1.

(** A read failure with two events queued behind it. *)
Definition failing_queue : list dispatch_item :=
  [ev_abs XWII_EVENT_ACCEL [Abs 1 2 3]; Dispatch (-5) (Event 0 0 0 []);
   ev_key 4 1; ev_plain XWII_EVENT_GONE].


(** The functions that only read: the queries and the seven accessors. *)
Definition readers : list (state → Z → option (list lua_value * state)) :=
  [l_xwii_info; l_xwii_get_battery; l_xwii_get_leds; l_xwii_accel; l_xwii_ir;
   l_xwii_motion_plus; l_xwii_nunchuk_accel; l_xwii_nunchuk_stick;
   l_xwii_pro_stick; l_xwii_board].

(** The number of answers still queued on the object of a slot. *)
Definition pending (st : state) (num : Z) : nat :=
  match heap st !! iface (dev st num) with
  | Some d => length (if_queue d)
  | None => 0%nat
  end.

(** The environment answers the next [n] calls of poll(2): the script holds
    a result for each of them. *)
Definition answered (n : nat) (st : state) : Prop :=
  (n ≤ length (waits st))%nat.

(** The [n] samples of the last event in a queue whose type satisfies
    [sel], [a] when there is none. *)
Definition last_frame (sel : Z → bool) (n : nat) (a : list xwii_event_abs)
  (q : list dispatch_item) : list xwii_event_abs :=
  foldl (λ a i, if sel (type (d_event i))
                then map (at_ (v_abs (d_event i))) (seq 0 n) else a) a q.

Definition is_ir (t : Z) : bool := t =? XWII_EVENT_IR.
Definition is_board (t : Z) : bool := t =? XWII_EVENT_BALANCE_BOARD.
Definition is_stick (t : Z) : bool :=
  (t =? XWII_EVENT_CLASSIC_CONTROLLER_MOVE) || (t =? XWII_EVENT_PRO_CONTROLLER_MOVE).

(** Joystick samples of a Classic and then of a Pro Controller, and one IR
    event that carries two points. *)
Definition frame_queue : list dispatch_item :=
  [ev_abs XWII_EVENT_CLASSIC_CONTROLLER_MOVE [Abs 1 2 0; Abs 3 4 0];
   ev_abs XWII_EVENT_IR [Abs 10 20 0; Abs 30 40 0];
   ev_abs XWII_EVENT_PRO_CONTROLLER_MOVE [Abs 5 6 0; Abs 7 8 0]].

(** * Properties *)

(** ** Basic facts *)

Lemma truthy_false n : truthy n = false ↔ n = 0.
Proof. unfold truthy. rewrite negb_false_iff. apply Z.eqb_eq. Qed.

Lemma truthy_true n : truthy n = true ↔ n ≠ 0.
Proof. unfold truthy. rewrite negb_true_iff. apply Z.eqb_neq. Qed.

Lemma is_open_inv st num :
  is_open st num = true →
  1 ≤ num ≤ NDEV ∧ fds_num (dev st num) ≠ 0
  ∧ devh st !! Z.to_nat (num - 1) = Some (dev st num).
Proof.
  unfold is_open. rewrite !andb_true_iff, !Z.leb_le, truthy_true.
  intros [[? ?] Hn]. repeat split; try done.
  revert Hn. unfold dev.
  destruct (devh st !! Z.to_nat (num - 1)) as [h|]; simpl; [done|].
  intros Hn. by destruct Hn.
Qed.

Lemma is_open_intro st num h :
  1 ≤ num ≤ NDEV → devh st !! Z.to_nat (num - 1) = Some h → fds_num h ≠ 0 →
  is_open st num = true.
Proof.
  intros [? ?] Hl Hn. unfold is_open, dev. rewrite Hl. simpl.
  rewrite !andb_true_iff, !Z.leb_le, truthy_true. done.
Qed.

Lemma dev_lookup st num h :
  devh st !! Z.to_nat (num - 1) = Some h → dev st num = h.
Proof. intros Hl. unfold dev. by rewrite Hl. Qed.

(** A wait that succeeds takes one answer of the script and stores
    [revents] in the polled slot. *)
Lemma sys_poll_ready st num :
  ready (waits st) →
  ∃ r e w rv,
    sys_poll st num
    = (r, e, store num (set_revents rv (dev st num)) (set_waits w st))
    ∧ (r <? 0) = false ∧ ready w.
Proof.
  unfold sys_poll, ready. destruct st as [t hp m sy w er]. simpl.
  destruct w as [|[r e] w]; intros Hr.
  - exists 1, 0, [], POLLIN. by repeat split.
  - inversion Hr as [|? ? Hr1 Hr2]; subst. simpl in Hr1.
    apply Z.ltb_ge in Hr1. rewrite Hr1.
    exists r, e, w, (if 0 <? r then POLLIN else 0). by repeat split.
Qed.

(** A wait that fails takes one answer of the script and stores nothing. *)
Lemma sys_poll_failed st num r e w :
  waits st = (r, e) :: w → r < 0 → sys_poll st num = (r, e, set_waits w st).
Proof.
  intros Hw Hr. unfold sys_poll. rewrite Hw. by apply Z.ltb_lt in Hr as ->.
Qed.

(** *** The switch *)

Lemma on_event_key num event s :
  key_case (type event) = true →
  on_event num event s = Return [key_table event] s.
Proof. intros Hk. unfold on_event. by rewrite Hk. Qed.

Lemma key_case_not_gone t : key_case t = true → (t =? XWII_EVENT_GONE) = false.
Proof.
  unfold key_case. rewrite !orb_true_iff, !Z.eqb_eq.
  intros H. apply Z.eqb_neq. intros ->.
  by repeat destruct H as [H|H].
Qed.

Lemma key_case_not_watch t : key_case t = true → (t =? XWII_EVENT_WATCH) = false.
Proof.
  unfold key_case. rewrite !orb_true_iff, !Z.eqb_eq.
  intros H. apply Z.eqb_neq. intros ->.
  by repeat destruct H as [H|H].
Qed.

Lemma on_event_gone num event s :
  type event = XWII_EVENT_GONE →
  on_event num event s =
  Return [LInteger XWII_EVENT_GONE]
    (Session (set_fds_num 0 (set_fds (Pollfd (-1) 0 (revents (fds (s_dev s)))) (s_dev s)))
       (s_iface s)
       (s_err s ++ [("xwii_poll: device #%d was removed\n"%string, [PInt num])])).
Proof. intros Ht. unfold on_event. rewrite Ht. reflexivity. Qed.

(** An absorbed event goes round the loop again; it leaves the descriptor
    count, the interface pointer and the pending queue as they are. *)
Lemma on_event_passes num event s :
  key_case (type event) = false → (type event =? XWII_EVENT_GONE) = false →
  ∃ s', on_event num event s = Break s'
        ∧ fds_num (s_dev s') = fds_num (s_dev s)
        ∧ iface (s_dev s') = iface (s_dev s)
        ∧ if_queue (s_iface s') = if_queue (s_iface s).
Proof.
  intros Hk Hg. unfold on_event. rewrite Hk, Hg.
  unfold xwii_iface_open.
  repeat case_match; simplify_eq; eexists; (split; [reflexivity|]); done.
Qed.

(** The table entry after an event does not depend on the interface object
    or on stderr. *)
Lemma absorb_dev num s1 s2 i :
  s_dev s1 = s_dev s2 → s_dev (absorb num s1 i) = s_dev (absorb num s2 i).
Proof.
  intros He. unfold absorb, on_event, xwii_iface_open.
  repeat case_match; simplify_eq; simpl; by rewrite ?He.
Qed.

(** *** The dispatch loop *)

Lemma foldl_absorb_dev num pre :
  ∀ s1 s2, s_dev s1 = s_dev s2 →
  s_dev (foldl (absorb num) s1 pre) = s_dev (foldl (absorb num) s2 pre).
Proof.
  induction pre as [|j pre IH]; intros s1 s2 He; [done|].
  simpl. apply IH. by apply absorb_dev.
Qed.

Lemma is_key_inv i :
  is_key i = true → truthy (d_ret i) = false ∧ key_case (type (d_event i)) = true.
Proof. unfold is_key. rewrite andb_true_iff, negb_true_iff. done. Qed.

Lemma passes_inv i :
  passes i = true →
  truthy (d_ret i) = false ∧ key_case (type (d_event i)) = false
  ∧ (type (d_event i) =? XWII_EVENT_GONE) = false.
Proof. unfold passes. rewrite !andb_true_iff, !negb_true_iff. tauto. Qed.

Lemma passes_not_key i : passes i = true → is_key i = false.
Proof.
  intros (_ & Hk & _)%passes_inv. unfold is_key. rewrite Hk.
  apply andb_false_r.
Qed.

Lemma dispatch_loop_nil num s :
  dispatch_loop num [] s = ([LNil], on_iface (set_queue []) s).
Proof. reflexivity. Qed.

Lemma dispatch_loop_key num i q s :
  is_key i = true →
  dispatch_loop num (i :: q) s
  = ([key_table (d_event i)], on_iface (set_queue q) s).
Proof.
  intros [Hr Hk]%is_key_inv. simpl. rewrite Hr.
  by rewrite on_event_key.
Qed.

Lemma dispatch_loop_passes num i q s :
  passes i = true →
  dispatch_loop num (i :: q) s
  = dispatch_loop num q (absorb num (on_iface (set_queue q) s) i).
Proof.
  intros (Hr & Hk & Hg)%passes_inv. simpl. rewrite Hr. unfold absorb.
  destruct (on_event_passes num (d_event i) (on_iface (set_queue q) s) Hk Hg)
    as (s' & -> & _). done.
Qed.

Lemma absorb_passes num i s :
  passes i = true →
  fds_num (s_dev (absorb num s i)) = fds_num (s_dev s)
  ∧ iface (s_dev (absorb num s i)) = iface (s_dev s).
Proof.
  intros (Hr & Hk & Hg)%passes_inv. unfold absorb.
  destruct (on_event_passes num (d_event i) s Hk Hg) as (s' & -> & ? & ? & _).
  done.
Qed.

(** Events the loop absorbs in front of any queue: the loop goes on with
    the rest from a session whose table entry has had exactly these events
    applied. *)
Lemma dispatch_loop_prefix num pre q :
  ∀ s, forallb passes pre = true →
  ∃ s1, dispatch_loop num (pre ++ q) s = dispatch_loop num q s1
        ∧ s_dev s1 = s_dev (foldl (absorb num) s pre)
        ∧ iface (s_dev s1) = iface (s_dev s).
Proof.
  induction pre as [|i pre IH]; intros s Hp.
  - exists s. by repeat split.
  - simpl in Hp. apply andb_true_iff in Hp as [Hi Hp].
    change ((i :: pre) ++ q) with (i :: (pre ++ q)).
    rewrite dispatch_loop_passes by done.
    destruct (IH (absorb num (on_iface (set_queue (pre ++ q)) s) i) Hp)
      as (s1 & -> & Hd & Hf).
    exists s1. split; [done|].
    destruct (absorb_passes num i (on_iface (set_queue (pre ++ q)) s) Hi) as [_ Hi'].
    split; [|by rewrite Hf, Hi'].
    rewrite Hd. simpl. apply foldl_absorb_dev. by apply absorb_dev.
Qed.

(** The loop on a queue whose first key event sits behind absorbed events:
    it returns that key event, has applied exactly the events before it,
    and leaves the queue behind it pending. *)
Lemma dispatch_loop_first_key num pre k rest s :
  forallb passes pre = true → is_key k = true →
  ∃ s', dispatch_loop num (pre ++ k :: rest) s = ([key_table (d_event k)], s')
        ∧ s_dev s' = s_dev (foldl (absorb num) s pre)
        ∧ iface (s_dev s') = iface (s_dev s)
        ∧ if_queue (s_iface s') = rest.
Proof.
  intros Hp Hk.
  destruct (dispatch_loop_prefix num pre (k :: rest) s Hp) as (s1 & -> & Hd & Hi).
  rewrite dispatch_loop_key by done. eexists. by repeat split.
Qed.

(** The loop on a burst: the first key event if there is one, otherwise
    "no event" with the queue drained; the slot stays open. *)
Lemma dispatch_loop_burst num q :
  ∀ s, burst q = true →
  ∃ r s', dispatch_loop num q s = (r, s')
    ∧ fds_num (s_dev s') = fds_num (s_dev s)
    ∧ iface (s_dev s') = iface (s_dev s)
    ∧ burst (if_queue (s_iface s')) = true
    ∧ match keys q with
      | [] => r = [LNil] ∧ keys (if_queue (s_iface s')) = []
      | k :: ks => r = [key_table (d_event k)] ∧ keys (if_queue (s_iface s')) = ks
      end.
Proof.
  induction q as [|i q IH]; intros s Hb.
  - rewrite dispatch_loop_nil. eexists _, _. by repeat split.
  - simpl in Hb. apply andb_true_iff in Hb as [Hi Hb].
    destruct (is_key i) eqn:Hk.
    + rewrite dispatch_loop_key by done.
      eexists _, _. split; [done|]. repeat split; [done|].
      unfold keys. simpl. by rewrite Hk.
    + simpl in Hi. rewrite dispatch_loop_passes by done.
      destruct (IH (absorb num (on_iface (set_queue q) s) i) Hb)
        as (r & s' & -> & Hf & Hp & Hb' & Hm).
      destruct (absorb_passes num i (on_iface (set_queue q) s) Hi) as [Hf1 Hp1].
      exists r, s'. split; [done|].
      rewrite Hf, Hf1, Hp, Hp1. repeat split; [done|].
      unfold keys in *. simpl. by rewrite Hk.
Qed.

(** *** What absorbed events leave in the cache *)

(** Absorbed events leave the slot open. *)
Lemma foldl_absorb_open num pre :
  ∀ s, forallb passes pre = true →
  fds_num (s_dev (foldl (absorb num) s pre)) = fds_num (s_dev s).
Proof.
  induction pre as [|i pre IH]; intros s Hp; [done|].
  simpl in Hp. apply andb_true_iff in Hp as [Hi Hp]. simpl.
  rewrite IH by done. by destruct (absorb_passes num i s Hi) as [-> _].
Qed.

(** What one event does to each of the four single-sample fields. *)
Lemma absorb_accel num s i :
  accel (s_dev (absorb num s i))
  = if type (d_event i) =? XWII_EVENT_ACCEL
    then at_ (v_abs (d_event i)) 0 else accel (s_dev s).
Proof.
  destruct (type (d_event i) =? XWII_EVENT_ACCEL) eqn:He;
    unfold absorb, on_event, xwii_iface_open.
  - apply Z.eqb_eq in He. rewrite He. reflexivity.
  - rewrite He. repeat case_match; simplify_eq; reflexivity.
Qed.

Lemma absorb_motion num s i :
  motion (s_dev (absorb num s i))
  = if type (d_event i) =? XWII_EVENT_MOTION_PLUS
    then at_ (v_abs (d_event i)) 0 else motion (s_dev s).
Proof.
  destruct (type (d_event i) =? XWII_EVENT_MOTION_PLUS) eqn:He;
    unfold absorb, on_event, xwii_iface_open.
  - apply Z.eqb_eq in He. rewrite He. reflexivity.
  - rewrite He. repeat case_match; simplify_eq; reflexivity.
Qed.

Lemma absorb_nunchuk_accel num s i :
  nunchuk_accel (s_dev (absorb num s i))
  = if type (d_event i) =? XWII_EVENT_NUNCHUK_MOVE
    then at_ (v_abs (d_event i)) 1 else nunchuk_accel (s_dev s).
Proof.
  destruct (type (d_event i) =? XWII_EVENT_NUNCHUK_MOVE) eqn:He;
    unfold absorb, on_event, xwii_iface_open.
  - apply Z.eqb_eq in He. rewrite He. reflexivity.
  - rewrite He. repeat case_match; simplify_eq; reflexivity.
Qed.

Lemma absorb_nunchuk_stick num s i :
  nunchuk_stick (s_dev (absorb num s i))
  = if type (d_event i) =? XWII_EVENT_NUNCHUK_MOVE
    then at_ (v_abs (d_event i)) 0 else nunchuk_stick (s_dev s).
Proof.
  destruct (type (d_event i) =? XWII_EVENT_NUNCHUK_MOVE) eqn:He;
    unfold absorb, on_event, xwii_iface_open.
  - apply Z.eqb_eq in He. rewrite He. reflexivity.
  - rewrite He. repeat case_match; simplify_eq; reflexivity.
Qed.

(** After a run of events each of these fields holds the sample of the last
    event of its type. *)
Lemma foldl_absorb_samples num q :
  ∀ s,
  accel (s_dev (foldl (absorb num) s q))
  = last_sample XWII_EVENT_ACCEL 0 (accel (s_dev s)) q
  ∧ motion (s_dev (foldl (absorb num) s q))
    = last_sample XWII_EVENT_MOTION_PLUS 0 (motion (s_dev s)) q
  ∧ nunchuk_accel (s_dev (foldl (absorb num) s q))
    = last_sample XWII_EVENT_NUNCHUK_MOVE 1 (nunchuk_accel (s_dev s)) q
  ∧ nunchuk_stick (s_dev (foldl (absorb num) s q))
    = last_sample XWII_EVENT_NUNCHUK_MOVE 0 (nunchuk_stick (s_dev s)) q.
Proof.
  induction q as [|i q IH]; intros s; [done|].
  unfold last_sample in *. simpl.
  destruct (IH (absorb num s i)) as (-> & -> & -> & ->).
  by rewrite absorb_accel, absorb_motion, absorb_nunchuk_accel, absorb_nunchuk_stick.
Qed.

(** The same for the three array fields, at their declared sizes. *)
Lemma absorb_ir num s i :
  length (ir (s_dev s)) = 4%nat →
  ir (s_dev (absorb num s i))
  = if is_ir (type (d_event i))
    then map (at_ (v_abs (d_event i))) (seq 0 4) else ir (s_dev s).
Proof.
  intros Hlen. unfold is_ir.
  destruct (type (d_event i) =? XWII_EVENT_IR) eqn:He;
    unfold absorb, on_event, xwii_iface_open.
  - apply Z.eqb_eq in He. rewrite He. simpl.
    destruct (ir (s_dev s)) as [|a0 [|a1 [|a2 [|a3 [|]]]]]; done.
  - rewrite He. repeat case_match; simplify_eq; reflexivity.
Qed.

Lemma absorb_board num s i :
  length (board (s_dev s)) = 4%nat →
  board (s_dev (absorb num s i))
  = if is_board (type (d_event i))
    then map (at_ (v_abs (d_event i))) (seq 0 4) else board (s_dev s).
Proof.
  intros Hlen. unfold is_board.
  destruct (type (d_event i) =? XWII_EVENT_BALANCE_BOARD) eqn:He;
    unfold absorb, on_event, xwii_iface_open.
  - apply Z.eqb_eq in He. rewrite He. simpl.
    destruct (board (s_dev s)) as [|a0 [|a1 [|a2 [|a3 [|]]]]]; done.
  - rewrite He. repeat case_match; simplify_eq; reflexivity.
Qed.

Lemma absorb_pro num s i :
  length (pro (s_dev s)) = 2%nat →
  pro (s_dev (absorb num s i))
  = if is_stick (type (d_event i))
    then map (at_ (v_abs (d_event i))) (seq 0 2) else pro (s_dev s).
Proof.
  intros Hlen. unfold is_stick.
  destruct (type (d_event i) =? XWII_EVENT_CLASSIC_CONTROLLER_MOVE) eqn:Hc;
    [|destruct (type (d_event i) =? XWII_EVENT_PRO_CONTROLLER_MOVE) eqn:Hp];
    unfold absorb, on_event, xwii_iface_open.
  - apply Z.eqb_eq in Hc. rewrite Hc. simpl.
    destruct (pro (s_dev s)) as [|a0 [|a1 [|]]]; done.
  - apply Z.eqb_eq in Hp. rewrite Hp. simpl.
    destruct (pro (s_dev s)) as [|a0 [|a1 [|]]]; done.
  - rewrite Hc, Hp. repeat case_match; simplify_eq; reflexivity.
Qed.

Lemma foldl_absorb_frames num q :
  ∀ s,
  length (ir (s_dev s)) = 4%nat → length (pro (s_dev s)) = 2%nat →
  length (board (s_dev s)) = 4%nat →
  ir (s_dev (foldl (absorb num) s q)) = last_frame is_ir 4 (ir (s_dev s)) q
  ∧ pro (s_dev (foldl (absorb num) s q)) = last_frame is_stick 2 (pro (s_dev s)) q
  ∧ board (s_dev (foldl (absorb num) s q)) = last_frame is_board 4 (board (s_dev s)) q.
Proof.
  induction q as [|i q IH]; intros s Hi Hp Hb; [done|].
  unfold last_frame in *. simpl.
  pose proof (absorb_ir num s i Hi) as Ei.
  pose proof (absorb_pro num s i Hp) as Ep.
  pose proof (absorb_board num s i Hb) as Eb.
  destruct (IH (absorb num s i)) as (-> & -> & ->).
  - rewrite Ei. by destruct (is_ir _).
  - rewrite Ep. by destruct (is_stick _).
  - rewrite Eb. by destruct (is_board _).
  - by rewrite Ei, Ep, Eb.
Qed.

(** *** One call of [l_xwii_poll] on an open slot whose wait succeeds *)

Lemma l_xwii_poll_ready st num d :
  is_open st num = true → heap st !! iface (dev st num) = Some d →
  ready (waits st) →
  ∃ w rv, ready w
    ∧ l_xwii_poll st num =
      let r := dispatch_loop num (if_queue d)
                 (Session (set_revents rv (dev st num)) d (stderr st)) in
      Some (r.1, commit st num w r.2).
Proof.
  intros Ho Hd Hr. unfold l_xwii_poll. rewrite Ho.
  destruct (sys_poll_ready st num Hr) as (r & e & w & rv & -> & -> & Hw).
  exists w, rv. split; [done|].
  apply is_open_inv in Ho as (_ & _ & Hl). apply lookup_lt_Some in Hl.
  set (st1 := store num _ _).
  assert (dev st1 num = set_revents rv (dev st num)) as ->.
  { unfold st1, dev, store. simpl. by rewrite list_lookup_insert_eq. }
  change (heap st1) with (heap st).
  change (iface (set_revents rv (dev st num))) with (iface (dev st num)).
  rewrite Hd. simpl.
  destruct (dispatch_loop num (if_queue d) _) as [vs s]. simpl.
  unfold commit. by rewrite list_insert_insert_eq.
Qed.

(** One call on an open slot, whatever the script: either the wait fails,
    or the drain runs on the entry in which poll(2) has stored [revents]. *)
Lemma l_xwii_poll_open st num d :
  is_open st num = true → heap st !! iface (dev st num) = Some d →
  (∃ r e,
     r < 0
     ∧ l_xwii_poll st num
       = Some ([LNil],
               if negb (e =? EINTR)
               then fprintf "xwii_poll: cannot poll fds err:%d\n" [PInt (- e)]
                      (set_waits (tail (waits st)) st)
               else set_waits (tail (waits st)) st))
  ∨ (∃ rv,
       l_xwii_poll st num =
       let r := dispatch_loop num (if_queue d)
                  (Session (set_revents rv (dev st num)) d (stderr st)) in
       Some (r.1, commit st num (tail (waits st)) r.2)).
Proof.
  intros Ho Hd.
  assert (∀ rv w,
            (let st1 := store num (set_revents rv (dev (set_waits w st) num))
                          (set_waits w st) in
             d ← heap st1 !! iface (dev st1 num);
             let '(vs, s) := dispatch_loop num (if_queue d)
                               (Session (dev st1 num) d (stderr st1)) in
             Some (vs,
                   State (<[Z.to_nat (num - 1) := s_dev s]> (devh st1))
                     (<[iface (dev st1 num) := s_iface s]> (heap st1))
                     (monitor_ok st1) (sysfs st1) (waits st1) (s_err s)))
            = let r := dispatch_loop num (if_queue d)
                         (Session (set_revents rv (dev st num)) d (stderr st)) in
              Some (r.1, commit st num w r.2)) as Hrun.
  { intros rv w. cbv zeta.
    pose proof (is_open_inv _ _ Ho) as (_ & _ & Hl). apply lookup_lt_Some in Hl.
    set (st1 := store num _ _).
    assert (dev st1 num = set_revents rv (dev st num)) as ->.
    { unfold st1, dev, store. simpl. by rewrite list_lookup_insert_eq. }
    change (heap st1) with (heap st).
    change (iface (set_revents rv (dev st num))) with (iface (dev st num)).
    rewrite Hd. simpl.
    destruct (dispatch_loop num (if_queue d) _) as [vs s]. simpl.
    unfold commit. by rewrite list_insert_insert_eq. }
  unfold l_xwii_poll, sys_poll. rewrite Ho.
  destruct (waits st) as [|[r e] w] eqn:Hw.
  - right. exists POLLIN. etrans; [|exact (Hrun POLLIN [])].
    destruct st as [t hp m sy w er]. simpl in Hw. by subst w.
  - cbv beta iota zeta. destruct (r <? 0) eqn:Hr.
    + left. exists r, e. split; [by apply Z.ltb_lt|]. by rewrite Hr.
    + right. exists (if 0 <? r then POLLIN else 0). rewrite Hr.
      etrans; [|exact (Hrun _ w)]. done.
Qed.

Lemma commit_dev st num w s :
  is_open st num = true → dev (commit st num w s) num = s_dev s.
Proof.
  intros (_ & _ & Hl)%is_open_inv. apply dev_lookup. simpl.
  apply list_lookup_insert_eq. by apply lookup_lt_Some in Hl.
Qed.

Lemma commit_open st num w s :
  is_open st num = true → fds_num (s_dev s) = fds_num (dev st num) →
  is_open (commit st num w s) num = true.
Proof.
  intros Ho Hf. pose proof (commit_dev st num w s Ho) as Hd.
  apply is_open_inv in Ho as (Hr & Hn & Hl).
  apply (is_open_intro _ _ (s_dev s)); [done| |congruence].
  simpl. apply list_lookup_insert_eq. by apply lookup_lt_Some in Hl.
Qed.

Lemma commit_iface st num w s :
  is_open st num = true → iface (s_dev s) = iface (dev st num) →
  heap (commit st num w s) !! iface (dev (commit st num w s) num) = Some (s_iface s).
Proof.
  intros Ho Hp. rewrite commit_dev by done. rewrite Hp. simpl.
  apply lookup_insert_eq.
Qed.

(** [S n] calls on a burst holding [n] key events. *)
Lemma polls_burst num n :
  ∀ st d,
  length (keys (if_queue d)) = n →
  is_open st num = true → heap st !! iface (dev st num) = Some d →
  ready (waits st) → burst (if_queue d) = true →
  ∃ st', polls (S n) st num
         = Some (map (λ k, [key_table (d_event k)]) (keys (if_queue d)) ++ [[LNil]], st').
Proof.
  induction n as [|n IH]; intros st d Hn Ho Hd Hr Hb.
  - destruct (l_xwii_poll_ready st num d Ho Hd Hr) as (w & rv & Hw & Hp).
    destruct (dispatch_loop_burst num (if_queue d)
                (Session (set_revents rv (dev st num)) d (stderr st)) Hb)
      as (r & s' & He & _ & _ & _ & Hm).
    destruct (keys (if_queue d)) as [|k ks]; [|done].
    destruct Hm as [-> _]. rewrite He in Hp. simpl in Hp.
    eexists. simpl. rewrite Hp. simpl. reflexivity.
  - destruct (l_xwii_poll_ready st num d Ho Hd Hr) as (w & rv & Hw & Hp).
    destruct (dispatch_loop_burst num (if_queue d)
                (Session (set_revents rv (dev st num)) d (stderr st)) Hb)
      as (r & s' & He & Hf & Hi & Hb' & Hm).
    destruct (keys (if_queue d)) as [|k ks] eqn:Hk; [done|].
    destruct Hm as [-> Hks]. rewrite He in Hp. simpl in Hp, Hf, Hi.
    destruct (IH (commit st num w s') (s_iface s')) as (st' & Hpolls).
    + rewrite Hks. simpl in Hn. lia.
    + by apply commit_open.
    + by apply commit_iface.
    + done.
    + done.
    + exists st'. remember (S n) as m eqn:Hm. simpl.
      rewrite Hp. simpl. rewrite Hpolls. simpl. by rewrite Hks.
Qed.

(** ** Key events are delivered one per call *)

(** C1, as stated, at a burst of one key event on an open session whose
    first wait is interrupted: of two calls in a row the first answers
    "no event" and the second the key event, where the claim has the first
    call answer the event and the second "no event". *)
Lemma poll_burst_behind_a_failed_wait :
  let d := remote 7 7 [ev_key 4 1] in
  let st := running d [(-1, EINTR); (1, 0)] in
  is_open st 1 = true
  ∧ heap st !! iface (dev st 1) = Some d
  ∧ burst (if_queue d) = true
  ∧ keys (if_queue d) = [ev_key 4 1]
  ∧ (∃ st', polls 2 st 1 = Some ([[LNil]; [key_table (d_event (ev_key 4 1))]], st'))
  ∧ ¬ ∃ st',
        polls (S (length (keys (if_queue d)))) st 1
        = Some (map (λ k, [key_table (d_event k)]) (keys (if_queue d)) ++ [[LNil]], st').
Proof.
  split; [reflexivity|]. split; [reflexivity|]. split; [reflexivity|].
  split; [reflexivity|]. split; [eexists; reflexivity|].
  intros [st' H]. vm_compute in H. discriminate.
Qed.

(** C1, amended. On an open session whose wait succeeds: (1) when the first
    key event of the queue sits behind events that the loop absorbs (motion
    samples,
    hotplug notifications, ignored kinds), the call returns that event's
    (code, state) pair and no other; the slot stays open and everything
    behind the key event stays queued; the accelerometer, Motion-Plus and
    Nunchuk fields of the slot each hold the sample of the last event of
    their type queued before the key event, and the [ir], [pro] and [board]
    arrays, at their declared sizes, the points of the last such event, a
    field with no such event keeping what it held; (2) when every wait
    succeeds and the queue holds N key events among absorbed events, N + 1
    calls in a row return those N events one each, in order, and then
    "no event". *)
Theorem poll_delivers_one_key_per_call st num d :
  is_open st num = true →
  heap st !! iface (dev st num) = Some d →
  ready (waits st) →
  (∀ pre k rest,
     if_queue d = pre ++ k :: rest → forallb passes pre = true → is_key k = true →
     length (ir (dev st num)) = 4%nat →
     length (pro (dev st num)) = 2%nat →
     length (board (dev st num)) = 4%nat →
     ∃ st' d',
       l_xwii_poll st num = Some ([key_table (d_event k)], st')
       ∧ is_open st' num = true
       ∧ heap st' !! iface (dev st' num) = Some d'
       ∧ if_queue d' = rest
       ∧ accel (dev st' num)
         = last_sample XWII_EVENT_ACCEL 0 (accel (dev st num)) pre
       ∧ motion (dev st' num)
         = last_sample XWII_EVENT_MOTION_PLUS 0 (motion (dev st num)) pre
       ∧ nunchuk_accel (dev st' num)
         = last_sample XWII_EVENT_NUNCHUK_MOVE 1 (nunchuk_accel (dev st num)) pre
       ∧ nunchuk_stick (dev st' num)
         = last_sample XWII_EVENT_NUNCHUK_MOVE 0 (nunchuk_stick (dev st num)) pre
       ∧ ir (dev st' num) = last_frame is_ir 4 (ir (dev st num)) pre
       ∧ pro (dev st' num) = last_frame is_stick 2 (pro (dev st num)) pre
       ∧ board (dev st' num) = last_frame is_board 4 (board (dev st num)) pre)
  ∧ (burst (if_queue d) = true →
     ∃ st',
       polls (S (length (keys (if_queue d)))) st num
       = Some (map (λ k, [key_table (d_event k)]) (keys (if_queue d)) ++ [[LNil]], st')).
Proof.
  intros Ho Hd Hr. split.
  - intros pre k rest Hq Hpre Hk Hir Hpro Hboard.
    destruct (l_xwii_poll_ready st num d Ho Hd Hr) as (w & rv & Hw & Hp).
    set (s := Session (set_revents rv (dev st num)) d (stderr st)) in *.
    destruct (dispatch_loop_first_key num pre k rest s Hpre Hk)
      as (s' & He & Hdev & Hi & Hrest).
    pose proof (foldl_absorb_open num pre s Hpre) as Hf. rewrite <- Hdev in Hf.
    rewrite Hq, He in Hp. simpl in Hp.
    destruct (foldl_absorb_samples num pre s) as (Ha & Hmo & Hna & Hns).
    destruct (foldl_absorb_frames num pre s Hir Hpro Hboard) as (Hfi & Hfp & Hfb).
    exists (commit st num w s'), (s_iface s').
    split; [done|]. split; [by apply commit_open|].
    split; [by apply commit_iface|]. split; [done|].
    rewrite commit_dev, Hdev by done. by repeat split.
  - intros Hb. by apply (polls_burst num _ st d).
Qed.

Lemma poll_delivers_one_key_per_call_witness :
  let st := running (remote 7 7 burst5) [(1, 0)] in
  (∃ st' d',
     l_xwii_poll st 1 = Some ([key_table (d_event (ev_key 4 1))], st')
     ∧ is_open st' 1 = true
     ∧ heap st' !! iface (dev st' 1) = Some d'
     ∧ if_queue d' = drop 2 burst5
     ∧ accel (dev st' 1) = Abs 1 2 3
     ∧ motion (dev st' 1) = abs_zero
     ∧ nunchuk_accel (dev st' 1) = abs_zero
     ∧ nunchuk_stick (dev st' 1) = abs_zero
     ∧ ir (dev st' 1) = replicate 4 abs_zero
     ∧ pro (dev st' 1) = replicate 2 abs_zero
     ∧ board (dev st' 1) = replicate 4 abs_zero)
  ∧ ∃ st',
      polls 6 st 1
      = Some ([[key_table (Event 0 4 1 [])]; [key_table (Event 0 4 0 [])];
               [key_table (Event 0 5 1 [])]; [key_table (Event 0 5 0 [])];
               [key_table (Event 0 2 1 [])]; [LNil]], st').
Proof.
  destruct (poll_delivers_one_key_per_call
              (running (remote 7 7 burst5) [(1, 0)]) 1 (remote 7 7 burst5))
    as [Hone Hall].
  - reflexivity.
  - reflexivity.
  - repeat constructor. simpl. lia.
  - split.
    + apply (Hone [ev_abs XWII_EVENT_ACCEL [Abs 1 2 3]] (ev_key 4 1) (drop 2 burst5));
        reflexivity.
    + apply Hall. reflexivity.
Defined.

(** ** Device removal *)

Lemma closed_info st num :
  is_open st num = false → l_xwii_info st num = Some ([LInteger 0], st).
Proof. intros Hc. unfold l_xwii_info. by rewrite Hc. Qed.

Lemma closed_poll st num :
  is_open st num = false → l_xwii_poll st num = Some ([LNil], st).
Proof. intros Hc. unfold l_xwii_poll. by rewrite Hc. Qed.

(** C2. When a call on an open session decodes a device-gone event (behind
    events that the loop absorbs), that same call clears the descriptor (fd
    -1, no events, count 0) so that the slot is closed, and returns the
    event type as an integer, a value that is neither "no event" nor a key
    table.  From then on [l_xwii_info] answers 0 for the handle and a
    further call of [l_xwii_poll] answers "no event" without touching the
    state, so the signal is delivered once. *)
Theorem poll_signals_device_gone st num d pre g rest :
  is_open st num = true →
  heap st !! iface (dev st num) = Some d →
  ready (waits st) →
  if_queue d = pre ++ g :: rest →
  forallb passes pre = true →
  truthy (d_ret g) = false →
  type (d_event g) = XWII_EVENT_GONE →
  ∃ st',
    l_xwii_poll st num = Some ([LInteger XWII_EVENT_GONE], st')
    ∧ fds_num (dev st' num) = 0
    ∧ fd (fds (dev st' num)) = -1
    ∧ events (fds (dev st' num)) = 0
    ∧ is_open st' num = false
    ∧ l_xwii_info st' num = Some ([LInteger 0], st')
    ∧ l_xwii_poll st' num = Some ([LNil], st')
    ∧ LInteger XWII_EVENT_GONE ≠ LNil
    ∧ ∀ event, LInteger XWII_EVENT_GONE ≠ key_table event.
Proof.
  intros Ho Hd Hr Hq Hpre Hret Hg.
  destruct (l_xwii_poll_ready st num d Ho Hd Hr) as (w & rv & Hw & Hp).
  destruct (dispatch_loop_prefix num pre (g :: rest)
              (Session (set_revents rv (dev st num)) d (stderr st)) Hpre)
    as (s1 & He & _ & _).
  rewrite Hq, He in Hp. simpl in Hp. rewrite Hret in Hp.
  rewrite (on_event_gone _ _ _ Hg) in Hp. simpl in Hp.
  eexists. split; [exact Hp|].
  rewrite commit_dev by done. simpl.
  repeat split; try done.
  - unfold is_open. rewrite commit_dev by done. simpl.
    by rewrite !andb_false_r.
  - apply closed_info. unfold is_open. rewrite commit_dev by done. simpl.
    by rewrite !andb_false_r.
  - apply closed_poll. unfold is_open. rewrite commit_dev by done. simpl.
    by rewrite !andb_false_r.
Qed.

Lemma poll_signals_device_gone_witness :
  ∃ st',
    l_xwii_poll (running (remote 7 7 gone_queue) []) 1
    = Some ([LInteger XWII_EVENT_GONE], st')
    ∧ fds_num (dev st' 1) = 0
    ∧ fd (fds (dev st' 1)) = -1
    ∧ events (fds (dev st' 1)) = 0
    ∧ is_open st' 1 = false
    ∧ l_xwii_info st' 1 = Some ([LInteger 0], st')
    ∧ l_xwii_poll st' 1 = Some ([LNil], st')
    ∧ LInteger XWII_EVENT_GONE ≠ LNil
    ∧ ∀ event, LInteger XWII_EVENT_GONE ≠ key_table event.
Proof.
  apply (poll_signals_device_gone
           (running (remote 7 7 gone_queue) []) 1 (remote 7 7 gone_queue)
           [ev_abs XWII_EVENT_ACCEL [Abs 1 2 3]]
           (ev_plain XWII_EVENT_GONE) [ev_key 4 1]).
  - reflexivity.
  - reflexivity.
  - constructor.
  - reflexivity.
  - reflexivity.
  - reflexivity.
  - reflexivity.
Defined.

(** ** The motion accessors and their gates *)

(** On a closed or out-of-range handle every accessor answers nil. *)
Lemma accessors_closed st num :
  is_open st num = false →
  l_xwii_accel st num = Some ([LNil], st)
  ∧ l_xwii_ir st num = Some ([LNil], st)
  ∧ l_xwii_motion_plus st num = Some ([LNil], st)
  ∧ l_xwii_nunchuk_accel st num = Some ([LNil], st)
  ∧ l_xwii_nunchuk_stick st num = Some ([LNil], st)
  ∧ l_xwii_pro_stick st num = Some ([LNil], st)
  ∧ l_xwii_board st num = Some ([LNil], st).
Proof.
  intros Hc.
  unfold l_xwii_accel, l_xwii_ir, l_xwii_motion_plus, l_xwii_nunchuk_accel,
    l_xwii_nunchuk_stick, l_xwii_pro_stick, l_xwii_board.
  rewrite Hc. by repeat split.
Qed.

(** The Motion-Plus and Nunchuk accessors test the bit of their own
    interface. *)
Lemma accessors_own_bit st num d :
  is_open st num = true → heap st !! iface (dev st num) = Some d →
  (Z.land (if_opened d) XWII_IFACE_MOTION_PLUS = 0 →
     l_xwii_motion_plus st num = Some ([LNil], st))
  ∧ (Z.land (if_opened d) XWII_IFACE_NUNCHUK = 0 →
     l_xwii_nunchuk_accel st num = Some ([LNil], st)
     ∧ l_xwii_nunchuk_stick st num = Some ([LNil], st)).
Proof.
  intros Ho Hd.
  unfold l_xwii_motion_plus, l_xwii_nunchuk_accel, l_xwii_nunchuk_stick.
  rewrite Ho, Hd. simpl. unfold xwii_iface_opened.
  split; intros ->; done.
Qed.

(** The other four accessors all test [XWII_IFACE_CORE]. *)
Lemma accessors_core_bit st num d :
  is_open st num = true → heap st !! iface (dev st num) = Some d →
  Z.land (if_opened d) XWII_IFACE_CORE = 0 →
  l_xwii_accel st num = Some ([LNil], st)
  ∧ l_xwii_ir st num = Some ([LNil], st)
  ∧ l_xwii_pro_stick st num = Some ([LNil], st)
  ∧ l_xwii_board st num = Some ([LNil], st).
Proof.
  intros Ho Hd Hb.
  unfold l_xwii_accel, l_xwii_ir, l_xwii_pro_stick, l_xwii_board.
  rewrite Ho, Hd. simpl. unfold xwii_iface_opened. rewrite Hb. done.
Qed.

(** C3. The code at a session opened on a plain Wii Remote: neither the
    Classic/Pro Controller bits nor the Balance Board bit is set among the
    opened interfaces, and still [l_xwii_pro_stick] and [l_xwii_board]
    answer a table of zeros instead of nil. *)
Theorem pro_stick_and_board_answer_without_their_interface :
  let st := running plain_remote [] in
  is_open st 1 = true
  ∧ heap st !! iface (dev st 1) = Some plain_remote
  ∧ Z.land (if_opened plain_remote)
      (Z.lor XWII_IFACE_CLASSIC_CONTROLLER XWII_IFACE_PRO_CONTROLLER) = 0
  ∧ Z.land (if_opened plain_remote) XWII_IFACE_BALANCE_BOARD = 0
  ∧ l_xwii_pro_stick st 1
    = Some ([LTable [(1, LInteger 0); (2, LInteger 0); (3, LInteger 0); (4, LInteger 0)]], st)
  ∧ l_xwii_board st 1
    = Some ([LTable [(1, LInteger 0); (2, LInteger 0); (3, LInteger 0); (4, LInteger 0)]], st).
Proof. repeat split. Qed.

(** ** The balance board *)

(** C7. The code at two sessions that have just polled one balance-board
    event (weights 10, 20, 30, 40).  (1) On a Balance Board, whose own
    interface is open and whose core interface is not, the weights are in
    the [board] array of the table entry but [l_xwii_board] answers nil, and
    so does the method [in_1_board].  (2) When the core interface is open as
    well, [l_xwii_board] answers the four weights, but [in_1_board], which
    calls [xwii_pro_stick], sends the joystick positions (all zero) under
    the selector "board". *)
Theorem board_is_gated_and_fed_by_other_channels :
  (∃ st',
     l_xwii_poll (running balance_board []) 1 = Some ([LNil], st')
     ∧ map x (board (dev st' 1)) = [10; 20; 30; 40]
     ∧ is_open st' 1 = true
     ∧ (∃ d, heap st' !! iface (dev st' 1) = Some d
             ∧ Z.land (if_opened d) XWII_IFACE_BALANCE_BOARD ≠ 0)
     ∧ l_xwii_board st' 1 = Some ([LNil], st')
     ∧ in_1_board st' 1 = Some ([], st'))
  ∧ (∃ st',
       l_xwii_poll (running core_and_board []) 1 = Some ([LNil], st')
       ∧ l_xwii_board st' 1
         = Some ([LTable [(1, LInteger 10); (2, LInteger 20);
                          (3, LInteger 30); (4, LInteger 40)]], st')
       ∧ in_1_board st' 1
         = Some ([Outlet 2 "board"
                    (LTable [(1, LInteger 0); (2, LInteger 0);
                             (3, LInteger 0); (4, LInteger 0)])], st')).
Proof.
  split.
  - eexists. split; [reflexivity|]. repeat split.
    eexists. split; [reflexivity|]. done.
  - eexists. split; [reflexivity|]. by repeat split.
Qed.

(** ** Opening a device *)

Lemma get_dev_loop_none mon :
  ∀ i num, i + Z.of_nat (length mon) < num → get_dev_loop mon i num = None.
Proof.
  induction mon as [|ent mon IH]; intros i num Hlt; [done|].
  simpl in *. destruct (i + 1 =? num) eqn:He.
  - apply Z.eqb_eq in He. lia.
  - apply IH. lia.
Qed.

Lemma get_dev_none st num :
  monitor_ok st = false ∨ Z.of_nat (length (sysfs st)) < num →
  get_dev st num = None.
Proof.
  intros [Hm|Hn]; unfold get_dev, xwii_monitor_new.
  - by rewrite Hm.
  - destruct (monitor_ok st); [|done].
    apply get_dev_loop_none. rewrite length_map. lia.
Qed.

Lemma dev_store st num h :
  (Z.to_nat (num - 1) < length (devh st))%nat → dev (store num h st) num = h.
Proof.
  intros Hlt. unfold dev, store. simpl. by rewrite list_lookup_insert_eq.
Qed.

Lemma is_open_false st num :
  is_open st num = false ↔ num < 1 ∨ NDEV < num ∨ fds_num (dev st num) = 0.
Proof.
  unfold is_open. rewrite !andb_false_iff, !Z.leb_gt, truthy_false. tauto.
Qed.

(** A fresh address holds no live object. *)
Lemma fresh_not_live (m : gmap nat xwii_iface) :
  m !! fresh ({[0%nat]} ∪ dom m) = None.
Proof.
  apply not_elem_of_dom.
  pose proof (is_fresh ({[0%nat]} ∪ dom m)) as Hf. set_solver.
Qed.

Lemma l_xwii_open_bad_index st num :
  num < 1 ∨ NDEV < num ∨ get_dev st num = None →
  l_xwii_open st num
  = Some ([LInteger 0], fprintf "xwii_open: cannot find device #%d\n" [PInt num] st).
Proof.
  intros H. unfold l_xwii_open.
  destruct ((num <? 1) || (NDEV <? num)) eqn:Hr; [done|].
  apply orb_false_iff in Hr as [H1%Z.ltb_ge H2%Z.ltb_ge].
  destruct H as [?|[?| ->]]; [lia|lia|done].
Qed.

Lemma l_xwii_open_already st num :
  is_open st num = true → l_xwii_open st num = Some ([LInteger 0], st)
  ∨ l_xwii_open st num
    = Some ([LInteger 0], fprintf "xwii_open: cannot find device #%d\n" [PInt num] st).
Proof.
  intros Ho. destruct (get_dev st num) as [path|] eqn:Hg.
  - left. destruct (is_open_inv _ _ Ho) as ([? ?] & Hn & _).
    unfold l_xwii_open.
    replace ((num <? 1) || (NDEV <? num)) with false
      by (symmetry; apply orb_false_iff; split; apply Z.ltb_ge; lia).
    rewrite Hg. by apply truthy_true in Hn as ->.
  - right. apply l_xwii_open_bad_index. auto.
Qed.

Lemma open_guard_passed st num path :
  1 ≤ num ≤ NDEV → get_dev st num = Some path →
  (if (num <? 1) || (NDEV <? num) then None else get_dev st num) = Some path.
Proof.
  intros [? ?] ->.
  replace ((num <? 1) || (NDEV <? num)) with false; [done|].
  symmetry. apply orb_false_iff. split; apply Z.ltb_ge; lia.
Qed.

Lemma closed_in_range st num :
  1 ≤ num ≤ NDEV → is_open st num = false → truthy (fds_num (dev st num)) = false.
Proof.
  intros [? ?] [?|[?|Hz]]%is_open_false; [lia|lia|]. by apply truthy_false.
Qed.

(** The table entry is not touched by writes to the heap or to stderr. *)
Lemma dev_set_heap m st num : dev (set_heap m st) num = dev st num.
Proof. reflexivity. Qed.
Lemma dev_put p d st num : dev (put p d st) num = dev st num.
Proof. reflexivity. Qed.
Lemma dev_fprintf fmt args st num : dev (fprintf fmt args st) num = dev st num.
Proof. reflexivity. Qed.
Lemma dev_unref p st num : dev (xwii_iface_unref p st) num = dev st num.
Proof. reflexivity. Qed.

Lemma l_xwii_open_new_failed st num path :
  1 ≤ num ≤ NDEV → is_open st num = false → get_dev st num = Some path →
  (xwii_iface_new path st).1.1 ≠ 0 →
  ∃ st', l_xwii_open st num = Some ([LInteger 0], st')
         ∧ devh st' = devh st ∧ heap st' = heap st.
Proof.
  intros Hr Hc Hg Hn. unfold l_xwii_open.
  rewrite (open_guard_passed _ _ _ Hr Hg), (closed_in_range _ _ Hr Hc).
  revert Hn. unfold xwii_iface_new.
  destruct (find _ (sysfs st)) as [dv|]; simpl.
  - destruct (truthy (dev_new_ret dv)) eqn:Ht; simpl.
    + rewrite Ht. intros _. eexists. by repeat split.
    + apply truthy_false in Ht. intros Hn. by destruct Hn.
  - intros _. eexists. by repeat split.
Qed.

Lemma l_xwii_open_open_failed st num path dv :
  length (devh st) = Z.to_nat NDEV →
  1 ≤ num ≤ NDEV → is_open st num = false → get_dev st num = Some path →
  find (λ d, String.eqb (dev_path d) path) (sysfs st) = Some dv →
  dev_new_ret dv = 0 → if_open_ret (dev_iface dv) ≠ 0 →
  ∃ st' p, l_xwii_open st num = Some ([LInteger 0], st')
           ∧ devh st' = <[Z.to_nat (num - 1) := set_iface p (dev st num)]> (devh st)
           ∧ heap st' = heap st.
Proof.
  intros Hlen Hr Hc Hg Hf Hn Ho. unfold l_xwii_open.
  rewrite (open_guard_passed _ _ _ Hr Hg), (closed_in_range _ _ Hr Hc).
  unfold xwii_iface_new. rewrite Hf.
  apply truthy_false in Hn as Hn'. rewrite Hn'.
  set (p := fresh ({[0%nat]} ∪ dom (heap st))).
  change (truthy 0) with false. cbv iota.
  rewrite dev_set_heap.
  rewrite dev_store by (simpl; rewrite Hlen; unfold NDEV in *; lia).
  change (iface (set_iface p (dev st num))) with p.
  change (heap (store num (set_iface p (dev st num))
                  (set_heap (<[p:=dev_iface dv]> (heap st)) st)))
    with (<[p:=dev_iface dv]> (heap st)).
  rewrite lookup_insert_eq. simpl mbind. cbv beta.
  unfold xwii_iface_open.
  apply truthy_true in Ho as Ho'. rewrite Ho'. rewrite Ho'.
  rewrite dev_fprintf, dev_put.
  rewrite dev_store by (simpl; rewrite Hlen; unfold NDEV in *; lia).
  eexists _, p. split; [reflexivity|]. split; [reflexivity|].
  simpl. rewrite !delete_insert_eq. apply delete_id, fresh_not_live.
Qed.

Lemma is_open_devh st st' num :
  devh st' = devh st → is_open st' num = is_open st num.
Proof. intros He. unfold is_open, dev. by rewrite He. Qed.

(** C5. [l_xwii_open] fails with the sentinel 0 when the index is outside
    1..NDEV, when the enumeration cannot be started or yields fewer than
    [num] devices, when the slot is already open, when [xwii_iface_new]
    fails and when [xwii_iface_open] fails.  In each case no interface
    object is left allocated (the one created before a failing
    [xwii_iface_open] has been released), and the slot is open afterwards
    exactly if it was before.  The table is unchanged, except after a
    failing [xwii_iface_open], where the closed slot keeps the address of
    the released object and nothing else differs. *)
Theorem open_failure_leaves_table_and_heap st num e :
  length (devh st) = Z.to_nat NDEV →
  open_fails st num e →
  ∃ st',
    l_xwii_open st num = Some ([LInteger 0], st')
    ∧ heap st' = heap st
    ∧ is_open st' num = is_open st num
    ∧ match e with
      | OpenFailed =>
        ∃ p, devh st' = <[Z.to_nat (num - 1) := set_iface p (dev st num)]> (devh st)
      | _ => devh st' = devh st
      end.
Proof.
  intros Hlen Hf. destruct e; simpl in Hf.
  - eexists. split; [apply l_xwii_open_bad_index; tauto|]. by repeat split.
  - eexists. split.
    + apply l_xwii_open_bad_index. right. right. by apply get_dev_none.
    + by repeat split.
  - destruct (l_xwii_open_already st num Hf) as [-> | ->];
      eexists; by repeat split.
  - destruct Hf as (Hr & Hc & path & Hg & Hn).
    destruct (l_xwii_open_new_failed st num path Hr Hc Hg Hn)
      as (st' & -> & Hd & Hh).
    exists st'. repeat split; [done| |done]. by apply is_open_devh.
  - destruct Hf as (Hr & Hc & path & dv & Hg & Hfd & Hn & Ho).
    destruct (l_xwii_open_open_failed st num path dv Hlen Hr Hc Hg Hfd Hn Ho)
      as (st' & p & -> & Hd & Hh).
    exists st'. repeat split; [done| |by exists p].
    unfold is_open, dev. rewrite Hd.
    rewrite list_lookup_insert_eq by (rewrite Hlen; unfold NDEV in *; lia).
    done.
Qed.

Lemma open_failure_leaves_table_and_heap_witness :
  (∃ st', l_xwii_open (boot true [Device hid1 0 plain_remote] []) 11
          = Some ([LInteger 0], st')
          ∧ heap st' = ∅ ∧ is_open st' 11 = false
          ∧ devh st' = replicate 10 devhandle_zero)
  ∧ (∃ st', l_xwii_open (boot true [Device hid1 0 plain_remote] []) 2
            = Some ([LInteger 0], st')
            ∧ heap st' = ∅ ∧ is_open st' 2 = false
            ∧ devh st' = replicate 10 devhandle_zero)
  ∧ (∃ st', l_xwii_open (running plain_remote []) 1 = Some ([LInteger 0], st')
            ∧ heap st' = {[1%nat := plain_remote]} ∧ is_open st' 1 = true
            ∧ devh st' = devh (running plain_remote []))
  ∧ (∃ st', l_xwii_open (boot true [Device hid1 (-12) plain_remote] []) 1
            = Some ([LInteger 0], st')
            ∧ heap st' = ∅ ∧ is_open st' 1 = false
            ∧ devh st' = replicate 10 devhandle_zero)
  ∧ (∃ st', l_xwii_open (boot true [Device hid1 0 locked_remote] []) 1
            = Some ([LInteger 0], st')
            ∧ heap st' = ∅ ∧ is_open st' 1 = false
            ∧ ∃ p, devh st'
                   = <[0%nat := set_iface p devhandle_zero]>
                       (replicate 10 devhandle_zero)).
Proof.
  split; [|split; [|split; [|split]]].
  - apply (open_failure_leaves_table_and_heap
             (boot true [Device hid1 0 plain_remote] []) 11 BadIndex);
      [reflexivity|]. simpl. unfold NDEV. lia.
  - apply (open_failure_leaves_table_and_heap
             (boot true [Device hid1 0 plain_remote] []) 2 NoDevice);
      [reflexivity|]. simpl. lia.
  - apply (open_failure_leaves_table_and_heap
             (running plain_remote []) 1 AlreadyOpen); reflexivity.
  - apply (open_failure_leaves_table_and_heap
             (boot true [Device hid1 (-12) plain_remote] []) 1 NewFailed);
      [reflexivity|]. simpl. unfold NDEV.
    split; [lia|]. split; [reflexivity|].
    exists hid1. split; [reflexivity|]. simpl. lia.
  - apply (open_failure_leaves_table_and_heap
             (boot true [Device hid1 0 locked_remote] []) 1 OpenFailed);
      [reflexivity|]. simpl. unfold NDEV.
    split; [lia|]. split; [reflexivity|].
    exists hid1, (Device hid1 0 locked_remote).
    split; [reflexivity|]. split; [reflexivity|]. split; [reflexivity|].
    simpl. lia.
Defined.

Lemma is_open_dev st num :
  1 ≤ num ≤ NDEV → fds_num (dev st num) ≠ 0 → is_open st num = true.
Proof.
  intros [? ?] Hn. unfold is_open.
  rewrite !andb_true_iff, !Z.leb_le, truthy_true. done.
Qed.

(** A successful open: the handle is returned and the slot is open; the
    accelerometer, Motion-Plus and Nunchuk samples are zero; the [ir], [pro]
    and [board] arrays are what the slot held before the call. *)
Lemma l_xwii_open_success st num path dv :
  length (devh st) = Z.to_nat NDEV →
  1 ≤ num ≤ NDEV → is_open st num = false → get_dev st num = Some path →
  find (λ d, String.eqb (dev_path d) path) (sysfs st) = Some dv →
  dev_new_ret dv = 0 → if_open_ret (dev_iface dv) = 0 →
  ∃ st',
    l_xwii_open st num = Some ([LInteger num], st')
    ∧ is_open st' num = true
    ∧ accel (dev st' num) = abs_zero
    ∧ motion (dev st' num) = abs_zero
    ∧ nunchuk_accel (dev st' num) = abs_zero
    ∧ nunchuk_stick (dev st' num) = abs_zero
    ∧ ir (dev st' num) = ir (dev st num)
    ∧ pro (dev st' num) = pro (dev st num)
    ∧ board (dev st' num) = board (dev st num).
Proof.
  intros Hlen Hr Hc Hg Hf Hn Ho. unfold l_xwii_open.
  rewrite (open_guard_passed _ _ _ Hr Hg), (closed_in_range _ _ Hr Hc).
  unfold xwii_iface_new. rewrite Hf.
  apply truthy_false in Hn as Hn'. rewrite Hn'.
  set (p := fresh ({[0%nat]} ∪ dom (heap st))).
  change (truthy 0) with false. cbv iota.
  rewrite dev_set_heap.
  assert (Z.to_nat (num - 1) < length (devh st))%nat as Hlt
    by (rewrite Hlen; unfold NDEV in *; lia).
  rewrite dev_store by done.
  change (iface (set_iface p (dev st num))) with p.
  change (heap (store num (set_iface p (dev st num))
                  (set_heap (<[p:=dev_iface dv]> (heap st)) st)))
    with (<[p:=dev_iface dv]> (heap st)).
  rewrite lookup_insert_eq. simpl mbind. cbv beta.
  unfold xwii_iface_open.
  apply truthy_false in Ho as Ho'. rewrite Ho'.
  change (truthy 0) with false. cbv iota.
  unfold xwii_iface_watch.
  destruct (truthy (if_watch_ret _)) eqn:Hw.
  - rewrite Hw. eexists. split; [reflexivity|].
    split; [apply is_open_dev; [done|]|];
      rewrite dev_store by (simpl; by rewrite length_insert);
      rewrite ?dev_fprintf, ?dev_put, dev_store by done; simpl; [done|].
    by repeat split.
  - change (truthy 0) with false. cbv iota.
    eexists. split; [reflexivity|].
    split; [apply is_open_dev; [done|]|];
      rewrite dev_store by (simpl; by rewrite length_insert);
      rewrite ?dev_fprintf, ?dev_put, dev_store by done; simpl; [done|].
    by repeat split.
Qed.

(** C4. The code on open, poll, close, open of device 1: the second open
    succeeds and the accelerometer sample of the first session is gone, but
    the IR points and the joystick positions of the first session are still
    in the table entry, and [l_xwii_ir] and [l_xwii_pro_stick] answer them
    for the new session before it has polled anything. *)
Theorem reopen_keeps_ir_and_pro_samples :
  ∃ s1 s2 s3 s4,
    l_xwii_open (boot true [Device hid1 0 remote_with_classic] []) 1
    = Some ([LInteger 1], s1)
    ∧ l_xwii_poll s1 1 = Some ([LNil], s2)
    ∧ accel (dev s2 1) = Abs 1 2 3
    ∧ l_xwii_close s2 1 = Some ([], s3)
    ∧ l_xwii_open s3 1 = Some ([LInteger 1], s4)
    ∧ l_xwii_accel s4 1
      = Some ([LTable [(1, LInteger 0); (2, LInteger 0); (3, LInteger 0)]], s4)
    ∧ ir (dev s4 1) = [Abs 10 20 0; Abs 30 40 0; Abs 50 60 0; Abs 70 80 0]
    ∧ pro (dev s4 1) = [Abs 5 6 0; Abs 7 8 0]
    ∧ l_xwii_ir s4 1
      = Some ([LTable [(1, LInteger 10); (2, LInteger 20); (3, LInteger 30);
                       (4, LInteger 40); (5, LInteger 50); (6, LInteger 60);
                       (7, LInteger 70); (8, LInteger 80)]], s4)
    ∧ l_xwii_pro_stick s4 1
      = Some ([LTable [(1, LInteger 5); (2, LInteger 6);
                       (3, LInteger 7); (4, LInteger 8)]], s4).
Proof.
  eexists _, _, _, _.
  split; [vm_compute; reflexivity|].
  split; [vm_compute; reflexivity|].
  split; [reflexivity|].
  split; [vm_compute; reflexivity|].
  split; [vm_compute; reflexivity|].
  repeat split; vm_compute; reflexivity.
Qed.

(** ** A wait that fails *)

(** C6, as stated, at a session with one key event queued whose first wait
    is interrupted and whose second wait would succeed: the call answers
    "no event" after the first wait, with the second wait still pending and
    the key event still queued; a call that retried the wait would have
    answered what the call without the interruption answers, the key
    event. *)
Lemma poll_interrupted_wait_is_not_retried :
  let st := running (remote 7 7 [ev_key 4 1]) [(-1, EINTR); (1, 0)] in
  is_open st 1 = true
  ∧ l_xwii_poll st 1 = Some ([LNil], set_waits [(1, 0)] st)
  ∧ fst <$> l_xwii_poll (set_waits [(1, 0)] st) 1
    = Some [key_table (Event XWII_EVENT_KEY 4 1 [])]
  ∧ fst <$> l_xwii_poll st 1 ≠ fst <$> l_xwii_poll (set_waits [(1, 0)] st) 1.
Proof. repeat split. vm_compute. discriminate. Qed.

(** C6, amended. When the wait of a call on an open session fails, the call
    answers "no event" at once: that one wait is used up, none is retried,
    and neither the table nor any interface object changes.  The failure is
    logged unless errno is EINTR. *)
Theorem poll_failed_wait_is_no_event st num r e w :
  is_open st num = true →
  waits st = (r, e) :: w →
  r < 0 →
  l_xwii_poll st num
  = Some ([LNil],
          if decide (e = EINTR) then set_waits w st
          else fprintf "xwii_poll: cannot poll fds err:%d\n" [PInt (- e)]
                 (set_waits w st)).
Proof.
  intros Ho Hw Hr. unfold l_xwii_poll.
  rewrite Ho, (sys_poll_failed _ _ _ _ _ Hw Hr).
  apply Z.ltb_lt in Hr as ->.
  destruct (decide (e = EINTR)) as [->|Hne]; [done|].
  apply Z.eqb_neq in Hne as ->. done.
Qed.

Lemma poll_failed_wait_is_no_event_witness :
  let st := running (remote 7 7 [ev_key 4 1]) [(-1, EINTR); (1, 0)] in
  let st' := running (remote 7 7 [ev_key 4 1]) [(-1, 9); (1, 0)] in
  l_xwii_poll st 1 = Some ([LNil], set_waits [(1, 0)] st)
  ∧ l_xwii_poll st' 1
    = Some ([LNil],
            fprintf "xwii_poll: cannot poll fds err:%d\n" [PInt (-9)]
              (set_waits [(1, 0)] st')).
Proof.
  split.
  - apply (poll_failed_wait_is_no_event
             (running (remote 7 7 [ev_key 4 1]) [(-1, EINTR); (1, 0)])
             1 (-1) EINTR [(1, 0)]); [reflexivity|reflexivity|lia].
  - apply (poll_failed_wait_is_no_event
             (running (remote 7 7 [ev_key 4 1]) [(-1, 9); (1, 0)])
             1 (-1) 9 [(1, 0)]); [reflexivity|reflexivity|lia].
Defined.

(** ** Writing the LEDs *)

(** [!!(a & (1 << i))] is bit [i] of [a]. *)
Lemma land_shiftl_truthy a i :
  0 ≤ i → truthy (Z.land a (Z.shiftl 1 i)) = Z.testbit a i.
Proof.
  intros Hi. rewrite Z.shiftl_1_l. destruct (Z.testbit a i) eqn:Hb.
  - apply truthy_true. intros H0.
    assert (Z.testbit (Z.land a (2 ^ i)) i = true) as Ht
      by (by rewrite Z.land_spec, Hb, Z.pow2_bits_true).
    rewrite H0, Z.bits_0 in Ht. discriminate.
  - apply truthy_false. apply Z.bits_inj'. intros n Hn.
    rewrite Z.land_spec, Z.bits_0, Z.pow2_bits_eqb by lia.
    destruct (Z.eqb_spec i n) as [<-|]; by rewrite ?Hb, ?andb_false_r.
Qed.

(** A mask that fits in a byte is converted to itself. *)
Lemma to_uint8_fits x : 0 ≤ x < 256 → to_uint8 x = x.
Proof.
  intros Hx. unfold to_uint8.
  assert ((- 2 ^ 31 <=? x) && (x <? 2 ^ 31) = true) as ->
    by (apply andb_true_iff; split; [apply Z.leb_le|apply Z.ltb_lt]; lia).
  by apply Z.mod_small.
Qed.

(** The flag written to LED [j] (1..4) for a mask that fits in a byte. *)
Lemma led_flag mask j :
  0 ≤ mask < 256 → 1 ≤ j ≤ 4 →
  truthy (Z.land (to_uint8 mask) (Z.shiftl 1 (j - 1))) = Z.testbit mask (j - 1).
Proof.
  intros Hm Hj. rewrite to_uint8_fits by done. apply land_shiftl_truthy. lia.
Qed.

(** One turn of the loop of [l_xwii_set_leds], for the LED numbered
    [led = i + 1]. *)
Lemma set_leds_loop_cons i led ix mask d :
  led = i + 1 →
  set_leds_loop (i :: ix) mask d
  = if truthy (default 0 (if_set_led_err d !! led))
    then (default 0 (if_set_led_err d !! led), d)
    else set_leds_loop ix mask
           (set_leds (<[led := truthy (Z.land mask (Z.shiftl 1 (led - 1)))]> (if_leds d)) d).
Proof.
  intros ->. simpl. unfold xwii_iface_set_led, XWII_LED.
  replace (1 + (i + 1) - 1) with (i + 1) by lia.
  replace (i + 1 - 1) with i by lia.
  destruct (truthy (default 0 (if_set_led_err d !! (i + 1)))) eqn:Ht; simpl.
  - by rewrite Ht.
  - done.
Qed.

Lemma set_leds_err l d : if_set_led_err (set_leds l d) = if_set_led_err d.
Proof. reflexivity. Qed.

Lemma set_leds_leds l d : if_leds (set_leds l d) = l.
Proof. reflexivity. Qed.

Lemma l_xwii_set_leds_open st num mask d :
  is_open st num = true → heap st !! iface (dev st num) = Some d →
  l_xwii_set_leds st num mask
  = let r := set_leds_loop [0; 1; 2; 3] (to_uint8 mask) d in
    if truthy r.1
    then Some ([], fprintf "xwii_set_leds: cannot write LED state\n" []
                     (put (iface (dev st num)) r.2 st))
    else Some ([], put (iface (dev st num)) r.2 st).
Proof.
  intros Ho Hd. unfold l_xwii_set_leds. rewrite Ho, Hd.
  change (seqZ 0 4) with [0; 1; 2; 3]. cbn [mbind option_bind].
  by destruct (set_leds_loop _ _ d).
Qed.

(** The write to LED [n] succeeds, by [H]. *)
Ltac led_written n H :=
  rewrite (set_leds_loop_cons _ n) by done; rewrite ?set_leds_err, H;
  change (truthy 0) with false; cbv iota.

(** The write to LED [n] fails, by [H]. *)
Ltac led_refused n H :=
  rewrite (set_leds_loop_cons _ n) by done;
  rewrite ?set_leds_err, (proj2 (truthy_true _) H);
  cbn [fst snd]; rewrite ?set_leds_err, (proj2 (truthy_true _) H).

(** Lookups in a map of LEDs after a few writes. *)
Ltac led_lookup :=
  repeat (rewrite lookup_insert_eq || rewrite lookup_insert_ne by lia).

(** C8, as stated, at an object whose LED 3 refuses writes: the call logs
    the failure, but what it returns to its caller is what it returns when
    every write succeeds, namely nothing; the failure is not reported. *)
Lemma set_leds_failure_is_not_returned :
  let st := running led3_locked [] in
  let st0 := running flat_and_dark [] in
  default 0 (if_set_led_err led3_locked !! 3) ≠ 0
  ∧ (∀ j, default 0 (if_set_led_err flat_and_dark !! j) = 0)
  ∧ (∃ st', l_xwii_set_leds st 1 6 = Some ([], st') ∧ stderr st' ≠ stderr st)
  ∧ (∃ st', l_xwii_set_leds st0 1 6 = Some ([], st') ∧ stderr st' = stderr st0)
  ∧ fst <$> l_xwii_set_leds st 1 6 = fst <$> l_xwii_set_leds st0 1 6.
Proof.
  split; [vm_compute; discriminate|]. split; [done|].
  split; [eexists; split; [reflexivity|vm_compute; discriminate]|].
  split; [eexists; split; reflexivity|reflexivity].
Qed.

(** C8, amended. On an open session and for a mask in 0..255,
    [l_xwii_set_leds] writes LED 1 to LED 4 in this order, LED j receiving
    bit j-1 of the mask.  If the write to LED k is the first that fails, the
    call stops at once and logs the failure on stderr: LEDs 1..k-1 hold
    their new values, and LED k and everything after it are as they were
    before the call; nothing is rolled back.  If no write fails, all four
    LEDs hold their new values and nothing is logged.  In both cases the
    call returns no value: the failure is logged, not reported to the
    caller. *)
Theorem set_leds_stops_at_first_failed_write st num mask d :
  is_open st num = true →
  heap st !! iface (dev st num) = Some d →
  0 ≤ mask < 256 →
  (∀ k, 1 ≤ k ≤ 4 →
     default 0 (if_set_led_err d !! k) ≠ 0 →
     (∀ j, 1 ≤ j < k → default 0 (if_set_led_err d !! j) = 0) →
     ∃ d',
       l_xwii_set_leds st num mask
       = Some ([], fprintf "xwii_set_leds: cannot write LED state\n" []
                     (put (iface (dev st num)) d' st))
       ∧ (∀ j, 1 ≤ j < k → if_leds d' !! j = Some (Z.testbit mask (j - 1)))
       ∧ (∀ j, ¬ (1 ≤ j < k) → if_leds d' !! j = if_leds d !! j))
  ∧ ((∀ j, 1 ≤ j ≤ 4 → default 0 (if_set_led_err d !! j) = 0) →
     ∃ d',
       l_xwii_set_leds st num mask = Some ([], put (iface (dev st num)) d' st)
       ∧ (∀ j, 1 ≤ j ≤ 4 → if_leds d' !! j = Some (Z.testbit mask (j - 1)))
       ∧ (∀ j, ¬ (1 ≤ j ≤ 4) → if_leds d' !! j = if_leds d !! j)).
Proof.
  intros Ho Hd Hm. rewrite (l_xwii_set_leds_open _ _ _ _ Ho Hd). split.
  - intros k Hk Hfail Hbefore.
    assert (k = 1 ∨ k = 2 ∨ k = 3 ∨ k = 4) as [->|[->|[->| ->]]] by lia.
    + led_refused 1 Hfail.
      exists d. split; [done|]. split; [intros; lia|done].
    + pose proof (Hbefore 1 ltac:(lia)) as H1.
      led_written 1 H1. led_refused 2 Hfail.
      eexists. split; [done|]. rewrite set_leds_leds, !led_flag by lia.
      split; intros j Hj.
      * assert (j = 1) as -> by lia. by led_lookup.
      * by led_lookup.
    + pose proof (Hbefore 1 ltac:(lia)) as H1.
      pose proof (Hbefore 2 ltac:(lia)) as H2.
      led_written 1 H1. led_written 2 H2. led_refused 3 Hfail.
      eexists. split; [done|]. rewrite !set_leds_leds, !led_flag by lia.
      split; intros j Hj.
      * assert (j = 1 ∨ j = 2) as [-> | ->] by lia; by led_lookup.
      * by led_lookup.
    + pose proof (Hbefore 1 ltac:(lia)) as H1.
      pose proof (Hbefore 2 ltac:(lia)) as H2.
      pose proof (Hbefore 3 ltac:(lia)) as H3.
      led_written 1 H1. led_written 2 H2. led_written 3 H3.
      led_refused 4 Hfail.
      eexists. split; [done|]. rewrite !set_leds_leds, !led_flag by lia.
      split; intros j Hj.
      * assert (j = 1 ∨ j = 2 ∨ j = 3) as [-> |[-> | ->]] by lia; by led_lookup.
      * by led_lookup.
  - intros Hall.
    pose proof (Hall 1 ltac:(lia)) as H1. pose proof (Hall 2 ltac:(lia)) as H2.
    pose proof (Hall 3 ltac:(lia)) as H3. pose proof (Hall 4 ltac:(lia)) as H4.
    led_written 1 H1. led_written 2 H2. led_written 3 H3. led_written 4 H4.
    cbn [set_leds_loop fst snd]. change (truthy 0) with false. cbv iota.
    eexists. split; [done|]. rewrite !set_leds_leds, !led_flag by lia.
    split; intros j Hj.
    + assert (j = 1 ∨ j = 2 ∨ j = 3 ∨ j = 4) as [-> |[-> |[-> | ->]]] by lia;
        by led_lookup.
    + by led_lookup.
Qed.

Lemma set_leds_stops_at_first_failed_write_witness :
  let st := running led3_locked [] in
  ∃ d',
    l_xwii_set_leds st 1 6
    = Some ([], fprintf "xwii_set_leds: cannot write LED state\n" []
                  (put (iface (dev st 1)) d' st))
    ∧ (∀ j, 1 ≤ j < 3 → if_leds d' !! j = Some (Z.testbit 6 (j - 1)))
    ∧ (∀ j, ¬ (1 ≤ j < 3) → if_leds d' !! j = if_leds led3_locked !! j).
Proof.
  apply (proj1 (set_leds_stops_at_first_failed_write
                  (running led3_locked []) 1 6 led3_locked eq_refl eq_refl
                  ltac:(lia)) 3).
  - lia.
  - vm_compute. discriminate.
  - intros j Hj. assert (j = 1 ∨ j = 2) as [-> | ->] by lia; reflexivity.
Defined.

(** ** Battery and LED queries *)

Lemma XWII_LED_succ i : XWII_LED (i + 1) = i + 1.
Proof. unfold XWII_LED. lia. Qed.

(** A failed read, already made or still to come, ends the loop of
    [l_xwii_get_leds] with a nonzero return code. *)
Lemma get_leds_loop_fails ix :
  ∀ d ret mask,
  truthy ret = true
  ∨ (∃ i, i ∈ ix ∧ default 0 (if_get_led_err d !! (i + 1)) ≠ 0) →
  truthy (get_leds_loop ix d ret mask).1 = true.
Proof.
  induction ix as [|i ix IH]; intros d ret mask H.
  - destruct H as [H|(i & Hi & _)]; [done|]. by apply elem_of_nil in Hi.
  - simpl. destruct (truthy ret) eqn:Hr; [done|].
    rewrite XWII_LED_succ. apply IH.
    destruct H as [H|(k & Hk & He)]; [done|].
    apply elem_of_cons in Hk as [->|Hk].
    + left. by apply truthy_true.
    + right. by exists k.
Qed.

(** When every read succeeds and every LED is off the mask stays 0. *)
Lemma get_leds_loop_dark ix :
  ∀ d,
  (∀ i, i ∈ ix → default 0 (if_get_led_err d !! (i + 1)) = 0
                 ∧ default false (if_leds d !! (i + 1)) = false) →
  get_leds_loop ix d 0 0 = (0, 0).
Proof.
  induction ix as [|i ix IH]; intros d H; [done|].
  simpl. rewrite XWII_LED_succ.
  destruct (H i) as [-> ->]; [by left|].
  simpl. apply IH. intros k Hk. apply H. by right.
Qed.

(** C10. On a closed or out-of-range handle [l_xwii_get_battery] and
    [l_xwii_get_leds] answer the integer 0 and change nothing.  On an open
    session a failed read makes each answer nil instead, while a battery that
    reads 0 and four LEDs that read off make each answer the same integer 0
    as on a closed handle. *)
Theorem closed_handle_reads_as_zero st num :
  num < 1 ∨ NDEV < num ∨ fds_num (dev st num) = 0 →
  l_xwii_get_battery st num = Some ([LInteger 0], st)
  ∧ l_xwii_get_leds st num = Some ([LInteger 0], st)
  ∧ ∀ st1 n1 d,
      is_open st1 n1 = true → heap st1 !! iface (dev st1 n1) = Some d →
      (if_battery_ret d ≠ 0 → fst <$> l_xwii_get_battery st1 n1 = Some [LNil])
      ∧ ((∃ k, 1 ≤ k ≤ 4 ∧ default 0 (if_get_led_err d !! k) ≠ 0) →
         fst <$> l_xwii_get_leds st1 n1 = Some [LNil])
      ∧ (if_battery_ret d = 0 → if_capacity d = 0 →
         l_xwii_get_battery st1 n1 = Some ([LInteger 0], st1))
      ∧ ((∀ k, 1 ≤ k ≤ 4 → default 0 (if_get_led_err d !! k) = 0
                            ∧ default false (if_leds d !! k) = false) →
         l_xwii_get_leds st1 n1 = Some ([LInteger 0], st1)).
Proof.
  intros Hc%is_open_false. unfold l_xwii_get_battery, l_xwii_get_leds.
  rewrite Hc. split; [done|]. split; [done|].
  intros st1 n1 d Ho Hd. rewrite Ho, Hd. cbn [mbind option_bind].
  unfold xwii_iface_get_battery. change (seqZ 0 4) with [0; 1; 2; 3].
  repeat split.
  - intros Hb%truthy_true. by rewrite Hb.
  - intros (k & Hk & He).
    pose proof (get_leds_loop_fails [0; 1; 2; 3] d 0 0) as Hf.
    destruct (get_leds_loop [0; 1; 2; 3] d 0 0) as [ret mask].
    simpl in Hf. rewrite Hf; [done|]. right. exists (k - 1).
    replace (k - 1 + 1) with k by lia. split; [|done].
    rewrite !elem_of_cons. lia.
  - intros Hb Hz. rewrite Hb, Hz. done.
  - intros Hall. rewrite get_leds_loop_dark; [done|].
    intros i Hi. apply Hall.
    rewrite !elem_of_cons, elem_of_nil in Hi. lia.
Qed.

Lemma closed_handle_reads_as_zero_witness :
  let st := boot true [Device hid1 0 plain_remote] [] in
  (l_xwii_get_battery st 1 = Some ([LInteger 0], st)
   ∧ l_xwii_get_leds st 1 = Some ([LInteger 0], st))
  ∧ (fst <$> l_xwii_get_battery (running unreadable []) 1 = Some [LNil]
     ∧ fst <$> l_xwii_get_leds (running unreadable []) 1 = Some [LNil])
  ∧ (l_xwii_get_battery (running flat_and_dark []) 1
     = Some ([LInteger 0], running flat_and_dark [])
     ∧ l_xwii_get_leds (running flat_and_dark []) 1
       = Some ([LInteger 0], running flat_and_dark [])).
Proof.
  destruct (closed_handle_reads_as_zero
              (boot true [Device hid1 0 plain_remote] []) 1)
    as (Hb & Hl & Hopen); [right; right; reflexivity|].
  split; [by split|].
  destruct (Hopen (running unreadable []) 1 unreadable eq_refl eq_refl)
    as (Hb1 & Hl1 & _).
  destruct (Hopen (running flat_and_dark []) 1 flat_and_dark eq_refl eq_refl)
    as (_ & _ & Hb2 & Hl2).
  split; split.
  - apply Hb1. vm_compute. discriminate.
  - apply Hl1. exists 2. split; [lia|]. vm_compute. discriminate.
  - apply Hb2; reflexivity.
  - apply Hl2. intros k Hk.
    assert (k = 1 ∨ k = 2 ∨ k = 3 ∨ k = 4) as [->|[->|[->| ->]]] by lia;
      split; reflexivity.
Defined.

(** ** Listing the devices *)

(** [lua_settable] with a key above all keys of the table appends. *)
Lemma lua_settable_fresh t k v :
  Forall (λ e, e.1 < k) t → lua_settable t k v = t ++ [(k, v)].
Proof.
  intros Hf. unfold lua_settable.
  replace (existsb (λ e, e.1 =? k) t) with false; [done|].
  symmetry. induction Hf as [|e t He Hf IH]; [done|].
  simpl. rewrite IH, orb_false_r. apply Z.eqb_neq. lia.
Qed.

Lemma list_loop_spec mon :
  ∀ i t, Forall (λ e, e.1 ≤ i) t →
  list_loop mon i t
  = t ++ imap (λ j ent, (i + 1 + Z.of_nat j, LString ent)) mon.
Proof.
  induction mon as [|ent mon IH]; intros i t Ht.
  - simpl. by rewrite app_nil_r.
  - simpl. rewrite lua_settable_fresh
      by (eapply Forall_impl; [exact Ht|]; simpl; intros; lia).
    rewrite IH.
    + rewrite <- app_assoc. simpl. rewrite Z.add_0_r. do 2 f_equal.
      apply imap_ext. intros j e _. simpl. f_equal. lia.
    + apply Forall_app. split.
      * eapply Forall_impl; [exact Ht|]. simpl. intros. lia.
      * repeat constructor. simpl. lia.
Qed.

(** With a monitor, [l_xwii_list] answers one table holding the paths of
    the connected devices under the keys 1, 2, ... in enumeration order, and
    changes nothing. *)
Lemma l_xwii_list_monitor st :
  monitor_ok st = true →
  l_xwii_list st
  = ([LTable (imap (λ j ent, (Z.of_nat j + 1, LString ent))
                (map dev_path (sysfs st)))], st).
Proof.
  intros Hm. unfold l_xwii_list, xwii_monitor_new. rewrite Hm.
  rewrite list_loop_spec by constructor. simpl. do 3 f_equal.
  apply imap_ext. intros j e _. f_equal. lia.
Qed.

(** Without a monitor, [l_xwii_list] logs and leaves no result. *)
Lemma l_xwii_list_no_monitor st :
  monitor_ok st = false →
  l_xwii_list st = ([], fprintf "xwii_list: cannot create monitor\n" [] st).
Proof.
  intros Hm. unfold l_xwii_list, xwii_monitor_new. by rewrite Hm.
Qed.

(** C9. The code when the monitor cannot be created: [l_xwii_list] writes
    its message and returns no value at all, so its caller receives nil and
    not an empty table, and the method [in_1_devlist], which takes the
    length of the result, raises a Lua error.  With a monitor and no device
    connected the result is the empty table and the method completes. *)
Theorem list_without_monitor_returns_no_table :
  let st := boot false [Device hid1 0 plain_remote] [] in
  l_xwii_list st = ([], fprintf "xwii_list: cannot create monitor\n" [] st)
  ∧ first_result (l_xwii_list st).1 = LNil
  ∧ first_result (l_xwii_list st).1 ≠ LTable []
  ∧ (in_1_devlist st).1 = Raised "attempt to get length of a nil value (local 't')"
  ∧ l_xwii_list (boot true [] []) = ([LTable []], boot true [] [])
  ∧ (in_1_devlist (boot true [] [])).1 = Done []
  ∧ l_xwii_list (boot true [Device hid1 0 plain_remote] [])
    = ([LTable [(1, LString hid1)]], boot true [Device hid1 0 plain_remote] []).
Proof. repeat split; try reflexivity. vm_compute. discriminate. Qed.

(** * Further properties *)

(** ** Enumeration and lookup *)





(** ** Closing *)

(** The state after [l_xwii_close] on an open session. *)
Lemma l_xwii_close_open st num d :
  is_open st num = true →
  heap st !! iface (dev st num) = Some d →
  ∃ st',
    l_xwii_close st num = Some ([], st')
    ∧ devh st' = <[Z.to_nat (num - 1) := set_fds_num 0 (dev st num)]> (devh st)
    ∧ heap st' = delete (iface (dev st num)) (heap st)
    ∧ is_open st' num = false.
Proof.
  intros Ho Hd. unfold l_xwii_close at 1. rewrite Ho, Hd. simpl.
  eexists. split; [reflexivity|].
  rewrite dev_unref, dev_put.
  split; [reflexivity|]. split; [simpl; apply delete_insert_eq|].
  apply is_open_false. right. right.
  apply is_open_inv in Ho as (_ & _ & Hl).
  rewrite dev_store; [done|]. simpl. by apply lookup_lt_Some in Hl.
Qed.

(** X2. Closing an open session releases its interface object and marks the
    slot closed, leaving its cached samples and every other slot as they
    were; a second close of the same handle then changes nothing. *)
Theorem close_releases_the_session st num d :
  is_open st num = true →
  heap st !! iface (dev st num) = Some d →
  ∃ st',
    l_xwii_close st num = Some ([], st')
    ∧ devh st' = <[Z.to_nat (num - 1) := set_fds_num 0 (dev st num)]> (devh st)
    ∧ heap st' = delete (iface (dev st num)) (heap st)
    ∧ is_open st' num = false
    ∧ l_xwii_close st' num = Some ([], st').
Proof.
  intros Ho Hd.
  destruct (l_xwii_close_open st num d Ho Hd) as (st' & Hc & Hdh & Hh & Hc').
  exists st'. repeat split; try done.
  unfold l_xwii_close. by rewrite Hc'.
Qed.

Lemma close_releases_the_session_witness :
  ∃ st',
    l_xwii_close (running plain_remote []) 1 = Some ([], st')
    ∧ devh st'
      = <[Z.to_nat (1 - 1) := set_fds_num 0 (dev (running plain_remote []) 1)]>
          (devh (running plain_remote []))
    ∧ heap st'
      = delete (iface (dev (running plain_remote []) 1)) (heap (running plain_remote []))
    ∧ is_open st' 1 = false
    ∧ l_xwii_close st' 1 = Some ([], st').
Proof.
  apply (close_releases_the_session (running plain_remote []) 1 plain_remote);
    reflexivity.
Defined.

(** ** Opening, in full *)

(** The state after a successful [l_xwii_open]. *)
Lemma l_xwii_open_success_state st num path dv :
  length (devh st) = Z.to_nat NDEV →
  1 ≤ num ≤ NDEV → is_open st num = false → get_dev st num = Some path →
  find (λ d, String.eqb (dev_path d) path) (sysfs st) = Some dv →
  dev_new_ret dv = 0 → if_open_ret (dev_iface dv) = 0 →
  ∃ err,
    l_xwii_open st num
    = Some ([LInteger num],
            State
              (<[Z.to_nat (num - 1) :=
                   Devhandle (fresh ({[0%nat]} ∪ dom (heap st))) 1
                     (Pollfd (if_fd (dev_iface dv)) POLLIN 0)
                     abs_zero abs_zero abs_zero abs_zero
                     (ir (dev st num)) (pro (dev st num)) (board (dev st num))]>
                 (devh st))
              (<[fresh ({[0%nat]} ∪ dom (heap st)) := opened_object (dev_iface dv)]>
                 (heap st))
              (monitor_ok st) (sysfs st) (waits st) err).
Proof.
  intros Hlen Hr Hc Hg Hf Hn Ho. unfold l_xwii_open.
  rewrite (open_guard_passed _ _ _ Hr Hg), (closed_in_range _ _ Hr Hc).
  unfold xwii_iface_new. rewrite Hf.
  apply truthy_false in Hn as Hn'. rewrite Hn'.
  set (p := fresh ({[0%nat]} ∪ dom (heap st))).
  change (truthy 0) with false. cbv iota.
  rewrite dev_set_heap.
  assert (Z.to_nat (num - 1) < length (devh st))%nat as Hlt
    by (rewrite Hlen; unfold NDEV in *; lia).
  rewrite dev_store by done.
  change (iface (set_iface p (dev st num))) with p.
  change (heap (store num (set_iface p (dev st num))
                  (set_heap (<[p:=dev_iface dv]> (heap st)) st)))
    with (<[p:=dev_iface dv]> (heap st)).
  rewrite lookup_insert_eq. simpl mbind. cbv beta.
  unfold xwii_iface_open.
  apply truthy_false in Ho as Ho'. rewrite Ho'.
  change (truthy 0) with false. cbv iota.
  unfold opened_object, xwii_iface_watch, xwii_iface_available.
  destruct (truthy (if_watch_ret _)) eqn:Hw.
  - rewrite Hw. eexists. f_equal. f_equal.
    rewrite ?dev_fprintf, ?dev_put, dev_store by done.
    unfold store, fprintf, put, set_devh, set_heap. simpl.
    rewrite list_insert_insert_eq, !insert_insert_eq. reflexivity.
  - change (truthy 0) with false. cbv iota. eexists. f_equal. f_equal.
    rewrite ?dev_fprintf, ?dev_put, dev_store by done.
    unfold store, fprintf, put, set_devh, set_heap. simpl.
    rewrite list_insert_insert_eq, !insert_insert_eq. reflexivity.
Qed.

(** X3. A successful open followed by a close of the returned handle: the
    open session records the descriptor of the new interface object with
    [POLLIN], and [l_xwii_info] answers the device's available interfaces;
    after the close the set of live interface objects is exactly what it was
    before the open, the slot is closed, and no other slot has changed. *)
Theorem open_then_close_leaves_no_object st num path dv :
  length (devh st) = Z.to_nat NDEV →
  1 ≤ num ≤ NDEV → is_open st num = false → get_dev st num = Some path →
  find (λ d, String.eqb (dev_path d) path) (sysfs st) = Some dv →
  dev_new_ret dv = 0 → if_open_ret (dev_iface dv) = 0 →
  ∃ st1 st2,
    l_xwii_open st num = Some ([LInteger num], st1)
    ∧ is_open st1 num = true
    ∧ fds (dev st1 num) = Pollfd (if_fd (dev_iface dv)) POLLIN 0
    ∧ l_xwii_info st1 num = Some ([LInteger (if_available (dev_iface dv))], st1)
    ∧ l_xwii_close st1 num = Some ([], st2)
    ∧ heap st2 = heap st
    ∧ is_open st2 num = false
    ∧ ∀ i, i ≠ Z.to_nat (num - 1) → devh st2 !! i = devh st !! i.
Proof.
  intros Hlen Hr Hc Hg Hf Hn Ho.
  destruct (l_xwii_open_success_state st num path dv Hlen Hr Hc Hg Hf Hn Ho)
    as (err & Hopen).
  set (p := fresh ({[0%nat]} ∪ dom (heap st))) in *.
  assert (Z.to_nat (num - 1) < length (devh st))%nat as Hlt
    by (rewrite Hlen; unfold NDEV in *; lia).
  match type of Hopen with _ = Some (_, ?s) => set (st1 := s) in * end.
  assert (dev st1 num
          = Devhandle p 1 (Pollfd (if_fd (dev_iface dv)) POLLIN 0)
              abs_zero abs_zero abs_zero abs_zero
              (ir (dev st num)) (pro (dev st num)) (board (dev st num))) as Hdev.
  { apply dev_lookup. simpl. by apply list_lookup_insert_eq. }
  assert (is_open st1 num = true) as Ho1.
  { apply is_open_dev; [done|]. by rewrite Hdev. }
  assert (heap st1 !! iface (dev st1 num) = Some (opened_object (dev_iface dv))) as Hd1.
  { rewrite Hdev. simpl. apply lookup_insert_eq. }
  destruct (l_xwii_close_open st1 num _ Ho1 Hd1)
    as (st2 & Hclose & Hdevh2 & Hheap2 & Hc2).
  exists st1, st2. split; [done|]. split; [done|].
  split; [by rewrite Hdev|].
  split.
  { unfold l_xwii_info. rewrite Ho1, Hd1. simpl.
    unfold xwii_iface_available, opened_object. by destruct (truthy _). }
  split; [done|]. split.
  { rewrite Hheap2, Hdev. simpl. rewrite delete_insert_eq.
    apply delete_id, fresh_not_live. }
  split; [done|].
  intros i Hi. rewrite Hdevh2. simpl.
  by rewrite !list_lookup_insert_ne by done.
Qed.

Lemma open_then_close_leaves_no_object_witness :
  let st := boot true [Device hid1 0 remote_with_classic] [] in
  ∃ st1 st2,
    l_xwii_open st 1 = Some ([LInteger 1], st1)
    ∧ is_open st1 1 = true
    ∧ fds (dev st1 1) = Pollfd (if_fd remote_with_classic) POLLIN 0
    ∧ l_xwii_info st1 1 = Some ([LInteger (if_available remote_with_classic)], st1)
    ∧ l_xwii_close st1 1 = Some ([], st2)
    ∧ heap st2 = heap st
    ∧ is_open st2 1 = false
    ∧ ∀ i, i ≠ Z.to_nat (1 - 1) → devh st2 !! i = devh st !! i.
Proof.
  apply (open_then_close_leaves_no_object
           (boot true [Device hid1 0 remote_with_classic] []) 1 hid1
           (Device hid1 0 remote_with_classic)); try reflexivity.
  unfold NDEV. lia.
Defined.

(** ** The drain on any queue *)

(** An absorbed event leaves the available interfaces as they are and can
    only add to the opened ones. *)
Lemma absorb_masks num i s :
  if_available (s_iface (absorb num s i)) = if_available (s_iface s)
  ∧ ∃ m, if_opened (s_iface (absorb num s i)) = Z.lor (if_opened (s_iface s)) m.
Proof.
  unfold absorb, on_event, xwii_iface_open.
  repeat case_match; simplify_eq; simpl;
    (split; [done|]); first [by eexists | exists 0; by rewrite Z.lor_0_r].
Qed.

Lemma dispatch_loop_failed num i q s :
  truthy (d_ret i) = true →
  dispatch_loop num (i :: q) s
  = ([LNil],
     if negb (d_ret i =? - EAGAIN)
     then log "xwii_poll: read failed err:%d\n" [PInt (d_ret i)]
            (on_iface (set_queue q) s)
     else on_iface (set_queue q) s).
Proof. intros Hr. simpl. by rewrite Hr. Qed.

Lemma dispatch_loop_gone num i q s :
  truthy (d_ret i) = false → type (d_event i) = XWII_EVENT_GONE →
  dispatch_loop num (i :: q) s
  = ([LInteger XWII_EVENT_GONE],
     Session
       (set_fds_num 0 (set_fds (Pollfd (-1) 0 (revents (fds (s_dev s)))) (s_dev s)))
       (set_queue q (s_iface s))
       (s_err s ++ [("xwii_poll: device #%d was removed\n"%string, [PInt num])])).
Proof.
  intros Hr Hg. simpl. rewrite Hr. by rewrite (on_event_gone _ _ _ Hg).
Qed.

(** The loop on any queue: what it returns and what it leaves queued are
    decided by the first answer that is not absorbed; the interface pointer
    and the available interfaces stay, opened interfaces are only added,
    and the descriptor count is cleared exactly when the device is gone. *)
Lemma dispatch_loop_first_stop num q :
  ∀ s,
  ∃ s', dispatch_loop num q s = ([stop_value (first_stop q).1], s')
    ∧ if_queue (s_iface s') = (first_stop q).2
    ∧ iface (s_dev s') = iface (s_dev s)
    ∧ fds_num (s_dev s')
      = match (first_stop q).1 with Gone => 0 | _ => fds_num (s_dev s) end
    ∧ if_available (s_iface s') = if_available (s_iface s)
    ∧ ∃ m, if_opened (s_iface s') = Z.lor (if_opened (s_iface s)) m.
Proof.
  induction q as [|i q IH]; intros s.
  - rewrite dispatch_loop_nil. eexists. repeat split.
    exists 0. simpl. by rewrite Z.lor_0_r.
  - simpl first_stop. destruct (truthy (d_ret i)) eqn:Hr.
    { rewrite dispatch_loop_failed by done.
      eexists. split; [reflexivity|].
      destruct (negb _); simpl; repeat split;
        exists 0; by rewrite Z.lor_0_r. }
    destruct (key_case (type (d_event i))) eqn:Hk.
    { rewrite dispatch_loop_key by (unfold is_key; by rewrite Hr, Hk).
      eexists. split; [reflexivity|]. simpl. repeat split.
      exists 0. by rewrite Z.lor_0_r. }
    destruct (type (d_event i) =? XWII_EVENT_GONE) eqn:Hg.
    { apply Z.eqb_eq in Hg. rewrite dispatch_loop_gone by done.
      eexists. split; [reflexivity|]. simpl. repeat split.
      exists 0. by rewrite Z.lor_0_r. }
    assert (passes i = true) as Hp by (unfold passes; by rewrite Hr, Hk, Hg).
    rewrite dispatch_loop_passes by done.
    destruct (IH (absorb num (on_iface (set_queue q) s) i))
      as (s' & -> & Hq & Hi & Hf & Ha & m & Hm).
    destruct (absorb_passes num i (on_iface (set_queue q) s) Hp) as [Hf1 Hi1].
    destruct (absorb_masks num i (on_iface (set_queue q) s)) as (Ha1 & m1 & Hm1).
    exists s'. split; [done|]. split; [done|].
    split; [by rewrite Hi, Hi1|].
    split; [rewrite Hf, Hf1; done|].
    split; [by rewrite Ha, Ha1|].
    exists (Z.lor m1 m). rewrite Hm, Hm1. simpl. by rewrite Z.lor_assoc.
Qed.

(** A stop that yields a value has consumed at least one queued answer. *)
Lemma first_stop_shorter q :
  stop_value (first_stop q).1 ≠ LNil →
  (length (first_stop q).2 < length q)%nat.
Proof.
  induction q as [|i q IH]; [done|]. simpl.
  repeat case_match; simpl; intros Hv; try lia; try done.
  specialize (IH Hv). lia.
Qed.

Lemma first_stop_length q : (length (first_stop q).2 ≤ length q)%nat.
Proof.
  induction q as [|i q IH]; [done|]. simpl.
  repeat case_match; simpl; lia.
Qed.

(** X4. A call of [l_xwii_poll] on an open session whose wait succeeds, for
    any queue: the value returned and the answers left queued are decided by
    the first queued answer that the loop does not absorb (nil for an empty
    queue or a failed read, the key table for a key event, the integer event
    type for a removal); the slot is closed afterwards exactly when that
    answer was a removal, so a failed read does not end the session. *)
Theorem poll_is_decided_by_first_stop st num d :
  is_open st num = true →
  heap st !! iface (dev st num) = Some d →
  ready (waits st) →
  ∃ st' d',
    l_xwii_poll st num = Some ([stop_value (first_stop (if_queue d)).1], st')
    ∧ heap st' !! iface (dev st num) = Some d'
    ∧ iface (dev st' num) = iface (dev st num)
    ∧ if_queue d' = (first_stop (if_queue d)).2
    ∧ is_open st' num
      = match (first_stop (if_queue d)).1 with Gone => false | _ => true end.
Proof.
  intros Ho Hd Hr.
  destruct (l_xwii_poll_ready st num d Ho Hd Hr) as (w & rv & Hw & Hp).
  destruct (dispatch_loop_first_stop num (if_queue d)
              (Session (set_revents rv (dev st num)) d (stderr st)))
    as (s' & He & Hq & Hi & Hf & _).
  rewrite He in Hp. simpl in Hp, Hi, Hf.
  exists (commit st num w s'), (s_iface s').
  split; [done|]. split; [apply lookup_insert_eq|].
  split; [by rewrite commit_dev|]. split; [done|].
  destruct (first_stop (if_queue d)).1 eqn:Hs;
    try (by apply commit_open).
  unfold is_open. rewrite commit_dev by done. rewrite Hf.
  by rewrite !andb_false_r.
Qed.

Lemma poll_is_decided_by_first_stop_witness :
  let st := running (remote 7 7 failing_queue) [] in
  ∃ st' d',
    l_xwii_poll st 1 = Some ([LNil], st')
    ∧ heap st' !! iface (dev st 1) = Some d'
    ∧ iface (dev st' 1) = iface (dev st 1)
    ∧ if_queue d' = [ev_key 4 1; ev_plain XWII_EVENT_GONE]
    ∧ is_open st' 1 = true.
Proof.
  apply (poll_is_decided_by_first_stop
           (running (remote 7 7 failing_queue) []) 1 (remote 7 7 failing_queue));
    [reflexivity|reflexivity|constructor].
Defined.

(** ** What a poll does to the cache *)





(** ** Reading the LEDs *)

(** One turn of the loop of [l_xwii_get_leds] whose read succeeds. *)
Lemma get_leds_loop_cons i led ix d mask :
  led = i + 1 → default 0 (if_get_led_err d !! led) = 0 →
  get_leds_loop (i :: ix) d 0 mask
  = get_leds_loop ix d 0 (if lit d led then Z.lor mask (Z.shiftl 1 i) else mask).
Proof.
  intros -> He. simpl. rewrite XWII_LED_succ, He. reflexivity.
Qed.

Lemma get_leds_loop_reads d :
  (∀ j, 1 ≤ j ≤ 4 → default 0 (if_get_led_err d !! j) = 0) →
  get_leds_loop [0; 1; 2; 3] d 0 0 = (0, led_mask d).
Proof.
  intros Hall.
  rewrite (get_leds_loop_cons 0 1) by (try apply Hall; lia).
  rewrite (get_leds_loop_cons 1 2) by (try apply Hall; lia).
  rewrite (get_leds_loop_cons 2 3) by (try apply Hall; lia).
  rewrite (get_leds_loop_cons 3 4) by (try apply Hall; lia).
  unfold led_mask.
  by destruct (lit d 1), (lit d 2), (lit d 3), (lit d 4).
Qed.

Lemma led_mask_bits d :
  0 ≤ led_mask d < 16
  ∧ ∀ j, 1 ≤ j ≤ 4 → Z.testbit (led_mask d) (j - 1) = lit d j.
Proof.
  unfold led_mask. split.
  - destruct (lit d 1), (lit d 2), (lit d 3), (lit d 4); simpl; lia.
  - intros j Hj.
    assert (j = 1 ∨ j = 2 ∨ j = 3 ∨ j = 4) as [->|[->|[->| ->]]] by lia;
      by destruct (lit d 1), (lit d 2), (lit d 3), (lit d 4).
Qed.

(** X7. On an open session whose four LED reads succeed, [l_xwii_get_leds]
    answers a number between 0 and 15 whose bit j-1 is set exactly when LED j
    is lit, and changes nothing. *)
Theorem get_leds_answers_the_lit_leds st num d :
  is_open st num = true →
  heap st !! iface (dev st num) = Some d →
  (∀ j, 1 ≤ j ≤ 4 → default 0 (if_get_led_err d !! j) = 0) →
  ∃ m,
    l_xwii_get_leds st num = Some ([LInteger m], st)
    ∧ 0 ≤ m < 16
    ∧ ∀ j, 1 ≤ j ≤ 4 → Z.testbit m (j - 1) = lit d j.
Proof.
  intros Ho Hd Hall. exists (led_mask d).
  split; [|apply led_mask_bits].
  unfold l_xwii_get_leds. rewrite Ho, Hd.
  change (seqZ 0 4) with [0; 1; 2; 3]. cbn [mbind option_bind].
  by rewrite get_leds_loop_reads.
Qed.

Lemma get_leds_answers_the_lit_leds_witness :
  ∃ m,
    l_xwii_get_leds (running led3_locked []) 1
    = Some ([LInteger m], running led3_locked [])
    ∧ 0 ≤ m < 16
    ∧ ∀ j, 1 ≤ j ≤ 4 → Z.testbit m (j - 1) = lit led3_locked j.
Proof.
  apply (get_leds_answers_the_lit_leds (running led3_locked []) 1 led3_locked);
    [reflexivity|reflexivity|].
  intros j Hj.
  assert (j = 1 ∨ j = 2 ∨ j = 3 ∨ j = 4) as [->|[->|[->| ->]]] by lia;
    reflexivity.
Defined.

(** The low four bits of a number, bit by bit. *)
Lemma low_nibble m :
  Z.b2z (Z.testbit m 0) + 2 * Z.b2z (Z.testbit m 1)
  + 4 * Z.b2z (Z.testbit m 2) + 8 * Z.b2z (Z.testbit m 3) = m `mod` 16.
Proof.
  rewrite !Z.testbit_spec' by lia.
  change (2 ^ 0) with 1. change (2 ^ 1) with 2.
  change (2 ^ 2) with 4. change (2 ^ 3) with 8.
  Z.div_mod_to_equations. lia.
Qed.

(** X8. Writing a mask in 0..255 with [l_xwii_set_leds] and reading it back
    with [l_xwii_get_leds], on an open session where no LED write or read
    fails: the value read is the written mask reduced to its low four
    bits. *)
Theorem set_leds_then_get_leds st num mask d :
  is_open st num = true →
  heap st !! iface (dev st num) = Some d →
  0 ≤ mask < 256 →
  (∀ j, 1 ≤ j ≤ 4 → default 0 (if_set_led_err d !! j) = 0) →
  (∀ j, 1 ≤ j ≤ 4 → default 0 (if_get_led_err d !! j) = 0) →
  ∃ st',
    l_xwii_set_leds st num mask = Some ([], st')
    ∧ l_xwii_get_leds st' num = Some ([LInteger (mask `mod` 16)], st').
Proof.
  intros Ho Hd Hm Hw Hr. rewrite (l_xwii_set_leds_open _ _ _ _ Ho Hd).
  pose proof (Hw 1 ltac:(lia)) as H1. pose proof (Hw 2 ltac:(lia)) as H2.
  pose proof (Hw 3 ltac:(lia)) as H3. pose proof (Hw 4 ltac:(lia)) as H4.
  led_written 1 H1. led_written 2 H2. led_written 3 H3. led_written 4 H4.
  cbn [set_leds_loop fst snd]. change (truthy 0) with false. cbv iota.
  rewrite !set_leds_leds, !led_flag by lia.
  eexists. split; [reflexivity|].
  match goal with |- l_xwii_get_leds (put _ ?d1 _) _ = _ => set (d' := d1) end.
  unfold l_xwii_get_leds.
  rewrite (is_open_devh st (put (iface (dev st num)) d' st) num eq_refl), Ho.
  rewrite dev_put. simpl heap. rewrite lookup_insert_eq.
  change (seqZ 0 4) with [0; 1; 2; 3]. cbn [mbind option_bind].
  rewrite get_leds_loop_reads by (intros j Hj; by apply Hr).
  simpl. do 3 f_equal. rewrite <- low_nibble.
  unfold led_mask, lit, d'. simpl if_leds.
  by led_lookup.
Qed.

Lemma set_leds_then_get_leds_witness :
  ∃ st',
    l_xwii_set_leds (running flat_and_dark []) 1 0xA5 = Some ([], st')
    ∧ l_xwii_get_leds st' 1 = Some ([LInteger 5], st').
Proof.
  apply (set_leds_then_get_leds (running flat_and_dark []) 1 0xA5 flat_and_dark);
    [reflexivity|reflexivity|lia|intros j Hj; reflexivity..].
Defined.

(** ** Soundness of the table *)

Lemma sound_ext st st' :
  devh st' = devh st → heap st' = heap st → sound st → sound st'.
Proof. unfold sound. by intros -> ->. Qed.

Lemma sound_put p d st : sound st → sound (put p d st).
Proof.
  intros (Hlen & Hlive & Hdist). split; [done|]. split; [|done].
  intros i h Hl Hn. simpl. apply lookup_insert_is_Some'. right. by eapply Hlive.
Qed.

Lemma sound_open_live st num :
  sound st → is_open st num = true →
  ∃ d, heap st !! iface (dev st num) = Some d.
Proof.
  intros (_ & Hlive & _) (_ & Hn & Hl)%is_open_inv.
  by apply (Hlive _ _ Hl Hn).
Qed.

(** Replacing one entry of a sound table: the table stays sound when the
    other open slots keep their live objects and the new entry, if open,
    points to a live object that no other open slot points to. *)
Lemma sound_slot st st' n h :
  sound st →
  devh st' = <[n := h]> (devh st) →
  (∀ i hi, i ≠ n → devh st !! i = Some hi → fds_num hi ≠ 0 →
     is_Some (heap st' !! iface hi)) →
  (fds_num h ≠ 0 →
     is_Some (heap st' !! iface h)
     ∧ ∀ i hi, i ≠ n → devh st !! i = Some hi → fds_num hi ≠ 0 →
         iface hi ≠ iface h) →
  sound st'.
Proof.
  intros (Hlen & Hlive & Hdist) Hd Hothers Hnew.
  split; [by rewrite Hd, length_insert|]. rewrite Hd. split.
  - intros i hi [(-> & -> & _)|[Hi Hl]]%list_lookup_insert_Some Hn.
    + by apply Hnew.
    + by eapply Hothers.
  - intros i j hi hj [(-> & -> & _)|[Hi Hli]]%list_lookup_insert_Some
      [(-> & -> & _)|[Hj Hlj]]%list_lookup_insert_Some Hni Hnj He.
    + done.
    + destruct (Hnew Hni) as [_ Hne].
      by destruct (Hne j hj (not_eq_sym Hj) Hlj Hnj).
    + destruct (Hnew Hnj) as [_ Hne].
      by destruct (Hne i hi (not_eq_sym Hi) Hli Hni).
    + by eapply Hdist.
Qed.

Lemma boot_sound ok devs w : sound (boot ok devs w).
Proof.
  split; [done|]. split.
  - intros i h [-> _]%lookup_replicate Hn. by destruct Hn.
  - intros i j hi hj [-> _]%lookup_replicate _ Hn. by destruct Hn.
Qed.

(** The state after a poll whose wait succeeded is sound. *)
Lemma sound_commit st num w s' :
  sound st → is_open st num = true →
  iface (s_dev s') = iface (dev st num) →
  sound (commit st num w s').
Proof.
  intros Hs Ho Hi.
  destruct (is_open_inv _ _ Ho) as (_ & Hn & Hl).
  apply (sound_slot st _ (Z.to_nat (num - 1)) (s_dev s')); [done|done| |].
  - intros i hi _ Hli Hni. simpl. apply lookup_insert_is_Some'. right.
    destruct Hs as (_ & Hlive & _). by eapply Hlive.
  - intros _. split.
    + simpl. rewrite Hi. apply lookup_insert_is_Some'. by left.
    + intros i hi Hne Hli Hni He. rewrite Hi in He.
      destruct Hs as (_ & _ & Hdist).
      by destruct Hne; eapply (Hdist _ _ _ _ Hli Hl).
Qed.

(** Every way [l_xwii_open] can end, on a table of [NDEV] entries. *)
Lemma l_xwii_open_result st num :
  length (devh st) = Z.to_nat NDEV →
  ∃ r st',
    l_xwii_open st num = Some ([LInteger r], st')
    ∧ ((r = 0 ∧ devh st' = devh st ∧ heap st' = heap st)
       ∨ (r = 0 ∧ 1 ≤ num ≤ NDEV ∧ is_open st num = false ∧ heap st' = heap st
          ∧ ∃ p, devh st' = <[Z.to_nat (num - 1) := set_iface p (dev st num)]> (devh st))
       ∨ (r = num ∧ 1 ≤ num ≤ NDEV ∧ is_open st num = false
          ∧ ∃ h d,
              devh st' = <[Z.to_nat (num - 1) := h]> (devh st)
              ∧ fds_num h = 1
              ∧ iface h = fresh ({[0%nat]} ∪ dom (heap st))
              ∧ heap st' = <[fresh ({[0%nat]} ∪ dom (heap st)) := d]> (heap st))).
Proof.
  intros Hlen.
  destruct (decide (num < 1 ∨ NDEV < num)) as [Hout|Hin].
  { eexists _, _. split; [apply l_xwii_open_bad_index; tauto|]. left. by repeat split. }
  assert (1 ≤ num ≤ NDEV) as Hr by lia.
  destruct (get_dev st num) as [path|] eqn:Hg.
  2:{ eexists _, _. split; [apply l_xwii_open_bad_index; tauto|]. left. by repeat split. }
  destruct (is_open st num) eqn:Ho.
  { destruct (l_xwii_open_already st num Ho) as [-> | ->];
      eexists _, _; (split; [reflexivity|]); left; by repeat split. }
  destruct (decide ((xwii_iface_new path st).1.1 = 0)) as [Hnew|Hnew].
  2:{ destruct (l_xwii_open_new_failed st num path Hr Ho Hg Hnew) as (st' & -> & ? & ?).
      eexists _, _. split; [reflexivity|]. left. by repeat split. }
  revert Hnew. unfold xwii_iface_new.
  destruct (find _ (sysfs st)) as [dv|] eqn:Hf; [|simpl; unfold ENODEV; lia].
  destruct (truthy (dev_new_ret dv)) eqn:Ht.
  { simpl. apply truthy_true in Ht. lia. }
  intros _. apply truthy_false in Ht.
  destruct (decide (if_open_ret (dev_iface dv) = 0)) as [Hop|Hop].
  - destruct (l_xwii_open_success_state st num path dv Hlen Hr Ho Hg Hf Ht Hop)
      as (err & ->).
    eexists _, _. split; [reflexivity|]. right. right.
    split; [done|]. split; [done|]. split; [done|].
    eexists _, _. by repeat split.
  - destruct (l_xwii_open_open_failed st num path dv Hlen Hr Ho Hg Hf Ht Hop)
      as (st' & p & -> & ? & ?).
    eexists _, _. split; [reflexivity|]. right. left.
    split; [done|]. split; [done|]. split; [done|]. split; [done|]. by exists p.
Qed.

Lemma sound_open st num :
  sound st → ∃ r st', l_xwii_open st num = Some ([LInteger r], st') ∧ sound st'.
Proof.
  intros Hs. pose proof Hs as (Hlen & Hlive & Hdist).
  destruct (l_xwii_open_result st num Hlen)
    as (r & st' & Hopen & [(_ & Hd & Hh)|[(_ & Hr & Ho & Hh & p & Hd)|
                                           (_ & Hr & Ho & h & d & Hd & Hf & Hi & Hh)]]);
    exists r, st'; (split; [done|]).
  - by apply (sound_ext st).
  - apply (sound_slot st _ _ _ Hs Hd).
    + intros i hi _ Hl Hn. rewrite Hh. by eapply Hlive.
    + simpl. intros Hn. by destruct Hn; apply truthy_false, closed_in_range.
  - apply (sound_slot st _ _ _ Hs Hd).
    + intros i hi _ Hl Hn. rewrite Hh. apply lookup_insert_is_Some'. right.
      by eapply Hlive.
    + intros _. rewrite Hh, Hi. split; [apply lookup_insert_is_Some'; by left|].
      intros i hi _ Hl Hn He.
      destruct (Hlive _ _ Hl Hn) as [x Hx].
      rewrite He, fresh_not_live in Hx. done.
Qed.

Lemma sound_close st num :
  sound st → ∃ st', l_xwii_close st num = Some ([], st') ∧ sound st'.
Proof.
  intros Hs. destruct (is_open st num) eqn:Ho.
  - destruct (sound_open_live _ _ Hs Ho) as [d Hd].
    destruct (l_xwii_close_open st num d Ho Hd)
      as (st' & Hc & Hdevh & Hheap & _).
    exists st'. split; [done|].
    destruct (is_open_inv _ _ Ho) as (_ & Hn & Hl).
    pose proof Hs as (_ & Hlive & Hdist).
    apply (sound_slot st _ _ _ Hs Hdevh).
    + intros i hi Hne Hli Hni. rewrite Hheap.
      rewrite lookup_delete_ne; [by eapply Hlive|].
      intros He. by destruct Hne; eapply (Hdist _ _ _ _ Hli Hl).
    + simpl. intros Hz. by destruct Hz.
  - exists st. split; [|done]. unfold l_xwii_close. by rewrite Ho.
Qed.

Lemma sound_poll st num :
  sound st → ∃ vs st', l_xwii_poll st num = Some (vs, st') ∧ sound st'.
Proof.
  intros Hs. destruct (is_open st num) eqn:Ho.
  2:{ exists [LNil], st. split; [by apply closed_poll|done]. }
  destruct (sound_open_live _ _ Hs Ho) as [d Hd].
  destruct (l_xwii_poll_open st num d Ho Hd) as [(r & e & _ & ->)|(rv & ->)].
  - eexists _, _. split; [reflexivity|].
    destruct (negb (e =? EINTR)); by apply (sound_ext st).
  - destruct (dispatch_loop_first_stop num (if_queue d)
                (Session (set_revents rv (dev st num)) d (stderr st)))
      as (s1 & He1 & _ & Hi & _).
    rewrite He1. simpl in Hi. eexists _, _. split; [reflexivity|].
    by apply sound_commit.
Qed.

Lemma sound_set_leds st num mask :
  sound st → ∃ st', l_xwii_set_leds st num mask = Some ([], st') ∧ sound st'.
Proof.
  intros Hs. destruct (is_open st num) eqn:Ho.
  - destruct (sound_open_live _ _ Hs Ho) as [d Hd].
    rewrite (l_xwii_set_leds_open _ _ _ _ Ho Hd). cbv zeta.
    destruct (truthy _); eexists; (split; [reflexivity|]).
    + apply (sound_ext (put (iface (dev st num))
                          (set_leds_loop [0; 1; 2; 3] (to_uint8 mask) d).2 st));
        [done|done|by apply sound_put].
    + by apply sound_put.
  - exists st. split; [|done]. unfold l_xwii_set_leds. by rewrite Ho.
Qed.

Lemma sound_rumble st num flag :
  sound st → ∃ st', l_xwii_rumble st num flag = Some ([], st') ∧ sound st'.
Proof.
  intros Hs. unfold l_xwii_rumble. destruct (is_open st num) eqn:Ho.
  - destruct (sound_open_live _ _ Hs Ho) as [d Hd]. rewrite Hd. simpl.
    destruct (xwii_iface_rumble (truthy flag) d) as [ret d1].
    destruct (truthy ret); eexists; (split; [reflexivity|]).
    + apply (sound_ext (put (iface (dev st num)) d1 st));
        [done|done|by apply sound_put].
    + by apply sound_put.
  - by exists st.
Qed.

Lemma sound_readers st num :
  sound st →
  Forall (λ f, ∃ v st', f st num = Some ([v], st')
                        ∧ devh st' = devh st ∧ heap st' = heap st) readers.
Proof.
  intros Hs. unfold readers.
  destruct (is_open st num) eqn:Ho.
  - destruct (sound_open_live _ _ Hs Ho) as [d Hd].
    repeat apply Forall_cons_2; [..|apply Forall_nil_2];
      unfold l_xwii_info, l_xwii_get_battery, l_xwii_get_leds, l_xwii_accel,
        l_xwii_ir, l_xwii_motion_plus, l_xwii_nunchuk_accel,
        l_xwii_nunchuk_stick, l_xwii_pro_stick, l_xwii_board;
      rewrite Ho, Hd; cbn [mbind option_bind];
      repeat case_match; by eexists _, _.
  - repeat apply Forall_cons_2; [..|apply Forall_nil_2];
      unfold l_xwii_info, l_xwii_get_battery, l_xwii_get_leds, l_xwii_accel,
        l_xwii_ir, l_xwii_motion_plus, l_xwii_nunchuk_accel,
        l_xwii_nunchuk_stick, l_xwii_pro_stick, l_xwii_board;
      rewrite Ho; by eexists _, _.
Qed.

(** X9. On a sound table (NDEV entries, every open slot pointing to a live
    interface object of its own) every function of the binding returns for
    every handle, without reaching a dead interface pointer, and leaves the
    table sound: [l_xwii_open], [l_xwii_close], [l_xwii_poll],
    [l_xwii_set_leds] and [l_xwii_rumble] may change the state, the queries
    and the accessors change neither the table nor the interface objects.
    The table of a process that has just started is sound. *)
Theorem binding_keeps_the_table_sound st num :
  sound st →
  (∃ r st', l_xwii_open st num = Some ([LInteger r], st') ∧ sound st')
  ∧ (∃ st', l_xwii_close st num = Some ([], st') ∧ sound st')
  ∧ (∃ vs st', l_xwii_poll st num = Some (vs, st') ∧ sound st')
  ∧ (∀ mask, ∃ st', l_xwii_set_leds st num mask = Some ([], st') ∧ sound st')
  ∧ (∀ flag, ∃ st', l_xwii_rumble st num flag = Some ([], st') ∧ sound st')
  ∧ Forall (λ f, ∃ v st', f st num = Some ([v], st')
                          ∧ devh st' = devh st ∧ heap st' = heap st) readers
  ∧ ∀ ok devs w, sound (boot ok devs w).
Proof.
  intros Hs.
  split; [by apply sound_open|]. split; [by apply sound_close|].
  split; [by apply sound_poll|]. split; [intros; by apply sound_set_leds|].
  split; [intros; by apply sound_rumble|]. split; [by apply sound_readers|].
  apply boot_sound.
Qed.

Lemma two_open_sound d1 d2 : sound (two_open d1 d2).
Proof.
  split; [done|]. split.
  - intros i h Hl Hn.
    do 10 (destruct i as [|i];
           [simpl in Hl; simplify_eq; simpl in Hn;
            first [by destruct Hn | eexists; reflexivity]|]).
    done.
  - intros i j hi hj Hli Hlj Hni Hnj He.
    do 10 (destruct i as [|i];
           [simpl in Hli; simplify_eq; simpl in Hni;
            try (by destruct Hni);
            do 10 (destruct j as [|j];
                   [simpl in Hlj; simplify_eq; simpl in Hnj;
                    first [by destruct Hnj | lia | done]|]);
            done|]).
    done.
Qed.

Lemma binding_keeps_the_table_sound_witness :
  let st := two_open (remote 7 7 burst5) (remote 7 7 gone_queue) in
  (∃ r st', l_xwii_open st 2 = Some ([LInteger r], st') ∧ sound st')
  ∧ (∃ st', l_xwii_close st 2 = Some ([], st') ∧ sound st')
  ∧ (∃ vs st', l_xwii_poll st 2 = Some (vs, st') ∧ sound st')
  ∧ (∀ mask, ∃ st', l_xwii_set_leds st 2 mask = Some ([], st') ∧ sound st')
  ∧ (∀ flag, ∃ st', l_xwii_rumble st 2 flag = Some ([], st') ∧ sound st')
  ∧ Forall (λ f, ∃ v st', f st 2 = Some ([v], st')
                          ∧ devh st' = devh st ∧ heap st' = heap st) readers
  ∧ ∀ ok devs w, sound (boot ok devs w).
Proof.
  apply (binding_keeps_the_table_sound
           (two_open (remote 7 7 burst5) (remote 7 7 gone_queue)) 2).
  apply two_open_sound.
Defined.

(** ** The object's polling loop *)

Lemma tick_loop_burst num n :
  ∀ fuel st d,
  length (keys (if_queue d)) = n → (n < fuel)%nat →
  is_open st num = true → heap st !! iface (dev st num) = Some d →
  ready (waits st) → burst (if_queue d) = true →
  ∃ st' d',
    tick_loop fuel st num
    = Some (map (λ k, Outlet 1 "list" (key_table (d_event k))) (keys (if_queue d)), st')
    ∧ is_open st' num = true
    ∧ heap st' !! iface (dev st' num) = Some d'
    ∧ keys (if_queue d') = [].
Proof.
  induction n as [|n IH]; intros fuel st d Hn Hfuel Ho Hd Hr Hb;
    (destruct fuel as [|fuel]; [lia|]);
    destruct (is_open_inv _ _ Ho) as ([Hpos _] & _);
    simpl; (replace (0 <? num) with true by (symmetry; apply Z.ltb_lt; lia));
    destruct (l_xwii_poll_ready st num d Ho Hd Hr) as (w & rv & Hw & Hp);
    destruct (dispatch_loop_burst num (if_queue d)
                (Session (set_revents rv (dev st num)) d (stderr st)) Hb)
      as (r & s' & He & Hf & Hi & Hb' & Hm);
    rewrite He in Hp; simpl in Hp, Hf, Hi; rewrite Hp; simpl.
  - destruct (keys (if_queue d)) as [|k ks]; [|done].
    destruct Hm as [-> Hk]. simpl.
    eexists _, _. split; [reflexivity|].
    split; [by apply commit_open|]. split; [by apply commit_iface|done].
  - destruct (keys (if_queue d)) as [|k ks] eqn:Hk; [done|].
    destruct Hm as [-> Hks]. simpl.
    destruct (IH fuel (commit st num w s') (s_iface s')) as (st' & d' & -> & Hrest);
      [rewrite Hks; simpl in Hn; lia|lia|by apply commit_open
      |by apply commit_iface|done|done|].
    simpl. rewrite Hks. by eexists _, _.
Qed.

(** X10. [xwii:tick()] on an open session whose waits succeed and whose
    queue holds key events among absorbed events: given more turns than there
    are key events, it sends every queued key event to outlet 1 as a [list]
    message, in order and one message each, leaves no key event queued, and
    arms the clock with [self.period]. *)
Theorem tick_delivers_every_key_event fuel st self d :
  is_open st (self_d self) = true →
  heap st !! iface (dev st (self_d self)) = Some d →
  ready (waits st) →
  burst (if_queue d) = true →
  (length (keys (if_queue d)) < fuel)%nat →
  ∃ st' d',
    tick fuel st self
    = Some (map (λ k, Outlet 1 "list" (key_table (d_event k))) (keys (if_queue d)),
            set_self_clock (Some (self_period self)) self, st')
    ∧ heap st' !! iface (dev st' (self_d self)) = Some d'
    ∧ keys (if_queue d') = [].
Proof.
  intros Ho Hd Hr Hb Hfuel.
  destruct (tick_loop_burst (self_d self) _ fuel st d eq_refl Hfuel Ho Hd Hr Hb)
    as (st' & d' & Ht & _ & Hd' & Hk).
  exists st', d'. unfold tick. rewrite Ht. by repeat split.
Qed.

Lemma tick_delivers_every_key_event_witness :
  let st := running (remote 7 7 burst5) [] in
  let self := Xwii 1 10 1 None in
  ∃ st' d',
    tick 6 st self
    = Some ([Outlet 1 "list" (key_table (Event 0 4 1 []));
             Outlet 1 "list" (key_table (Event 0 4 0 []));
             Outlet 1 "list" (key_table (Event 0 5 1 []));
             Outlet 1 "list" (key_table (Event 0 5 0 []));
             Outlet 1 "list" (key_table (Event 0 2 1 []))],
            Xwii 1 10 1 (Some 10), st')
    ∧ heap st' !! iface (dev st' 1) = Some d'
    ∧ keys (if_queue d') = [].
Proof.
  apply (tick_delivers_every_key_event 6 (running (remote 7 7 burst5) [])
           (Xwii 1 10 1 None) (remote 7 7 burst5));
    [reflexivity|reflexivity|constructor|reflexivity|simpl; lia].
Defined.

(** A poll on a sound table returns one value; when that value is not nil,
    an answer has been taken from the queue of the slot's object.  The call
    makes at most one wait. *)
Lemma poll_progress st num :
  sound st →
  ∃ v st',
    l_xwii_poll st num = Some ([v], st') ∧ sound st'
    ∧ (v ≠ LNil → (pending st' num < pending st num)%nat)
    ∧ ∃ j, (j ≤ 1)%nat ∧ waits st' = drop j (waits st).
Proof.
  intros Hs. destruct (is_open st num) eqn:Ho.
  2:{ exists LNil, st. split; [by apply closed_poll|].
      split; [done|]. split; [by intros []|]. exists 0%nat. split; [lia|done]. }
  destruct (sound_open_live _ _ Hs Ho) as [d Hd].
  assert (tail (waits st) = drop 1 (waits st)) as Ht by by destruct (waits st).
  destruct (l_xwii_poll_open st num d Ho Hd) as [(r & e & _ & ->)|(rv & ->)].
  - eexists _, _. split; [reflexivity|]. split; [|split; [done|]].
    + destruct (negb (e =? EINTR)); by apply (sound_ext st).
    + exists 1%nat. split; [lia|]. by destruct (negb (e =? EINTR)).
  - destruct (dispatch_loop_first_stop num (if_queue d)
                (Session (set_revents rv (dev st num)) d (stderr st)))
      as (s' & He & Hq & Hi & _).
    simpl in Hi. rewrite He. eexists _, _. split; [reflexivity|].
    split; [by apply sound_commit|]. split.
    + intros Hv. unfold pending.
      rewrite (commit_iface st num _ s' Ho Hi), Hd, Hq.
      by apply first_stop_shorter.
    + exists 1%nat. split; [lia|done].
Qed.

(** The loop of [tick] ends within [pending + 1] turns: it sends at most as
    many messages as there were queued answers, and makes at most one wait
    more than it sends messages. *)
Lemma tick_loop_returns fuel :
  ∀ st d, sound st → (pending st d < fuel)%nat →
  ∃ out st' k,
    tick_loop fuel st d = Some (out, st') ∧ sound st'
    ∧ (length out ≤ pending st d)%nat
    ∧ (k ≤ S (length out))%nat
    ∧ waits st' = drop k (waits st).
Proof.
  induction fuel as [|fuel IH]; intros st d Hs Hfuel; [lia|].
  simpl. destruct (0 <? d).
  2:{ exists [], st, 0%nat. split; [done|]. split; [done|]. simpl.
      split; [lia|]. split; [lia|done]. }
  destruct (poll_progress st d Hs) as (v & st1 & -> & Hs1 & Hprog & j & Hj & Hw).
  simpl.
  destruct v as [|n|str|t];
    [exists [], st1, j; split; [done|]; split; [done|]; simpl;
     split; [lia|]; split; [lia|done]|..];
    specialize (Hprog ltac:(done));
    (destruct (IH st1 d Hs1) as (out & st2 & k & Hout & Hs2 & Hlen & Hk & Hw2);
     [lia|]);
    rewrite Hout; simpl; eexists _, _, (j + k)%nat;
    (split; [reflexivity|]); (split; [done|]);
    simpl; (split; [lia|]); (split; [lia|]);
    by rewrite Hw2, Hw, drop_drop.
Qed.

(** X11. [xwii:tick()] comes back when each of its waits does: on a sound
    table, whatever is queued, when the environment answers one wait more
    than there are queued answers and the loop is given more turns than
    there are queued answers, the loop ends; it has sent at most as many
    messages as there were queued answers and has made at most one wait more
    than that, each answered from the script; the object's handle is
    unchanged, the clock is armed with [self.period], and the table is sound
    afterwards.  (Every turn but the last takes at least one answer from the
    queue; a wait that never returns is outside this statement.) *)
Theorem tick_always_returns fuel st self :
  sound st →
  (pending st (self_d self) < fuel)%nat →
  answered (S (pending st (self_d self))) st →
  ∃ out st' k,
    tick fuel st self
    = Some (out, set_self_clock (Some (self_period self)) self, st')
    ∧ sound st'
    ∧ (length out ≤ pending st (self_d self))%nat
    ∧ (k ≤ S (length out))%nat
    ∧ (k ≤ length (waits st))%nat
    ∧ waits st' = drop k (waits st).
Proof.
  intros Hs Hfuel Hans.
  destruct (tick_loop_returns fuel st (self_d self) Hs Hfuel)
    as (out & st' & k & Ht & Hs' & Hlen & Hk & Hw).
  exists out, st', k. unfold tick. rewrite Ht.
  unfold answered in Hans.
  split; [done|]. split; [done|]. split; [done|]. split; [done|].
  split; [lia|done].
Qed.

Lemma tick_always_returns_witness :
  let st :=
    set_waits (replicate 5 (1, 0))
      (two_open (remote 7 7 burst5) (remote 7 7 failing_queue)) in
  let self := Xwii 2 10 2 None in
  ∃ out st' k,
    tick 5 st self = Some (out, set_self_clock (Some 10) self, st')
    ∧ sound st'
    ∧ (length out ≤ pending st 2)%nat
    ∧ (k ≤ S (length out))%nat
    ∧ (k ≤ length (waits st))%nat
    ∧ waits st' = drop k (waits st).
Proof.
  apply (tick_always_returns 5
           (set_waits (replicate 5 (1, 0))
              (two_open (remote 7 7 burst5) (remote 7 7 failing_queue)))
           (Xwii 2 10 2 None)).
  - apply (sound_ext (two_open (remote 7 7 burst5) (remote 7 7 failing_queue)));
      [reflexivity|reflexivity|apply two_open_sound].
  - vm_compute. lia.
  - vm_compute. lia.
Defined.

(** ** The object's handle *)

(** X12. A [bang] sent to an object whose device slot is already open (by
    this object or by another one): [xwii_open] answers 0, which the method
    stores in [self.d]; no poll is made, the table and the interface objects
    are untouched, and the clock is armed.  A following [0] message then
    closes handle 0, which is nothing: the clock is unset and the device
    slot is still open. *)
Theorem bang_on_an_open_device_forgets_the_handle fuel st self :
  is_open st (self_dev self) = true →
  ∃ st1,
    in_1_bang fuel st self
    = Some ([], Xwii (self_dev self) (self_period self) 0 (Some (self_period self)), st1)
    ∧ devh st1 = devh st ∧ heap st1 = heap st
    ∧ in_1_float fuel st1
        (Xwii (self_dev self) (self_period self) 0 (Some (self_period self))) 0
      = Some ([], Xwii (self_dev self) (self_period self) 0 None, st1)
    ∧ is_open st1 (self_dev self) = true.
Proof.
  intros Ho.
  assert (∀ st1, tick fuel st1 (set_self_d 0 self)
                 = Some ([], Xwii (self_dev self) (self_period self) 0
                               (Some (self_period self)), st1)) as Htick.
  { intros st1. unfold tick. by destruct fuel. }
  assert (∀ st1, in_1_float fuel st1
                   (Xwii (self_dev self) (self_period self) 0
                      (Some (self_period self))) 0
                 = Some ([], Xwii (self_dev self) (self_period self) 0 None, st1))
    as Hfloat by done.
  unfold in_1_bang.
  destruct (l_xwii_open_already st _ Ho) as [-> | ->]; simpl; rewrite Htick;
    eexists; (split; [reflexivity|]); repeat split; try done.
Qed.

Lemma bang_on_an_open_device_forgets_the_handle_witness :
  let st := running (remote 7 7 burst5) [] in
  ∃ st1,
    in_1_bang 9 st (Xwii 1 10 1 (Some 10)) = Some ([], Xwii 1 10 0 (Some 10), st1)
    ∧ devh st1 = devh st ∧ heap st1 = heap st
    ∧ in_1_float 9 st1 (Xwii 1 10 0 (Some 10)) 0 = Some ([], Xwii 1 10 0 None, st1)
    ∧ is_open st1 1 = true.
Proof.
  apply (bang_on_an_open_device_forgets_the_handle 9
           (running (remote 7 7 burst5) []) (Xwii 1 10 1 (Some 10))).
  reflexivity.
Defined.

(** X13. After a call of [l_xwii_poll] has reported the device gone, the
    interface object of the slot is still allocated, with whatever was
    queued behind the removal; [l_xwii_close] on the handle releases nothing
    and changes nothing, and the object's [info] and [battery] methods, whose
    [self.d] is still the handle, both send the number 0. *)
Theorem removed_device_keeps_its_object st num d rest :
  is_open st num = true →
  heap st !! iface (dev st num) = Some d →
  ready (waits st) →
  first_stop (if_queue d) = (Gone, rest) →
  ∃ st' d',
    l_xwii_poll st num = Some ([LInteger XWII_EVENT_GONE], st')
    ∧ heap st' !! iface (dev st' num) = Some d'
    ∧ if_queue d' = rest
    ∧ l_xwii_close st' num = Some ([], st')
    ∧ in_1_info st' num = Some ([Outlet 2 "info" (LTable [(1, LInteger 0)])], st')
    ∧ in_1_battery st' num
      = Some ([Outlet 2 "battery" (LTable [(1, LInteger 0)])], st').
Proof.
  intros Ho Hd Hr Hstop.
  destruct (l_xwii_poll_ready st num d Ho Hd Hr) as (w & rv & Hw & Hp).
  destruct (dispatch_loop_first_stop num (if_queue d)
              (Session (set_revents rv (dev st num)) d (stderr st)))
    as (s' & He & Hq & Hi & Hf & _).
  rewrite Hstop in He, Hq, Hf. rewrite He in Hp. simpl in Hp, Hq, Hi, Hf.
  destruct (is_open_inv _ _ Ho) as ([Hpos _] & _).
  assert (is_open (commit st num w s') num = false) as Hc.
  { unfold is_open. rewrite commit_dev by done. rewrite Hf.
    by rewrite !andb_false_r. }
  exists (commit st num w s'), (s_iface s').
  split; [done|]. split; [by apply commit_iface|]. split; [done|].
  unfold l_xwii_close, in_1_info, in_1_battery, l_xwii_info, l_xwii_get_battery.
  rewrite Hc.
  replace (0 <? num) with true by (symmetry; apply Z.ltb_lt; lia).
  by repeat split.
Qed.

Lemma removed_device_keeps_its_object_witness :
  let st := running (remote 7 7 gone_queue) [] in
  ∃ st' d',
    l_xwii_poll st 1 = Some ([LInteger XWII_EVENT_GONE], st')
    ∧ heap st' !! iface (dev st' 1) = Some d'
    ∧ if_queue d' = [ev_key 4 1]
    ∧ l_xwii_close st' 1 = Some ([], st')
    ∧ in_1_info st' 1 = Some ([Outlet 2 "info" (LTable [(1, LInteger 0)])], st')
    ∧ in_1_battery st' 1
      = Some ([Outlet 2 "battery" (LTable [(1, LInteger 0)])], st').
Proof.
  apply (removed_device_keeps_its_object
           (running (remote 7 7 gone_queue) []) 1 (remote 7 7 gone_queue));
    [reflexivity|reflexivity|constructor|reflexivity].
Defined.

(** ** The array fields of the cache *)

(** A poll that finds only absorbed events applies them all, to the entry
    in which poll(2) has stored [revents]. *)
Lemma l_xwii_poll_absorbed st num d :
  is_open st num = true →
  heap st !! iface (dev st num) = Some d →
  ready (waits st) →
  forallb passes (if_queue d) = true →
  ∃ rv st',
    l_xwii_poll st num = Some ([LNil], st')
    ∧ dev st' num
      = s_dev (foldl (absorb num)
                 (Session (set_revents rv (dev st num)) d (stderr st)) (if_queue d)).
Proof.
  intros Ho Hd Hr Hp.
  destruct (l_xwii_poll_ready st num d Ho Hd Hr) as (w & rv & Hw & Hpoll).
  destruct (dispatch_loop_prefix num (if_queue d) []
              (Session (set_revents rv (dev st num)) d (stderr st)) Hp)
    as (s1 & He1 & Hdev & _).
  rewrite app_nil_r in He1. rewrite He1, dispatch_loop_nil in Hpoll.
  simpl in Hpoll. eexists _, _. split; [exact Hpoll|].
  by rewrite commit_dev.
Qed.

(** X14. A call of [l_xwii_poll] that finds only events the loop absorbs, on
    a slot whose arrays have their declared sizes: afterwards [ir] holds the
    four points of the last IR event, [board] the four weights of the last
    balance-board event, and [pro] the two sticks of the last joystick event
    of either the Classic or the Pro Controller, which share the field; an
    array with no such event queued keeps its contents, and points that an
    event does not carry read as zero. *)
Theorem poll_caches_the_latest_frames st num d :
  is_open st num = true →
  heap st !! iface (dev st num) = Some d →
  ready (waits st) →
  forallb passes (if_queue d) = true →
  length (ir (dev st num)) = 4%nat →
  length (pro (dev st num)) = 2%nat →
  length (board (dev st num)) = 4%nat →
  ∃ st',
    l_xwii_poll st num = Some ([LNil], st')
    ∧ ir (dev st' num) = last_frame is_ir 4 (ir (dev st num)) (if_queue d)
    ∧ pro (dev st' num) = last_frame is_stick 2 (pro (dev st num)) (if_queue d)
    ∧ board (dev st' num) = last_frame is_board 4 (board (dev st num)) (if_queue d).
Proof.
  intros Ho Hd Hr Hp Hi Hs Hb.
  destruct (l_xwii_poll_absorbed st num d Ho Hd Hr Hp) as (rv & st' & Hpoll & Hdev).
  exists st'. split; [done|]. rewrite Hdev.
  by apply (foldl_absorb_frames num (if_queue d)
              (Session (set_revents rv (dev st num)) d (stderr st))).
Qed.

Lemma poll_caches_the_latest_frames_witness :
  let st := running (remote 0x1407 0x1407 frame_queue) [] in
  ∃ st',
    l_xwii_poll st 1 = Some ([LNil], st')
    ∧ ir (dev st' 1) = [Abs 10 20 0; Abs 30 40 0; Abs 0 0 0; Abs 0 0 0]
    ∧ pro (dev st' 1) = [Abs 5 6 0; Abs 7 8 0]
    ∧ board (dev st' 1) = replicate 4 abs_zero.
Proof.
  apply (poll_caches_the_latest_frames
           (running (remote 0x1407 0x1407 frame_queue) []) 1
           (remote 0x1407 0x1407 frame_queue));
    [reflexivity|reflexivity|constructor|reflexivity..].
Defined.

(** ** Closing from the object *)

(** X15. A [0] message and [finalize], on a sound table and whatever
    [self.d] is: both close the handle, after which its slot is not open and
    the table is sound; the [0] message also unsets the clock and sets
    [self.d] to 0, [finalize] leaves [self.d] as it was. *)
Theorem zero_message_closes_the_handle fuel st self :
  sound st →
  ∃ st',
    in_1_float fuel st self 0
    = Some ([], Xwii (self_dev self) (self_period self) 0 None, st')
    ∧ finalize st self
      = Some (Xwii (self_dev self) (self_period self) (self_d self) None, st')
    ∧ is_open st' (self_d self) = false
    ∧ sound st'.
Proof.
  intros Hs. unfold in_1_float, finalize. simpl.
  destruct (sound_close st (self_d self) Hs) as (st' & Hc & Hs').
  rewrite Hc. simpl. exists st'. split; [done|]. split; [done|].
  split; [|done].
  destruct (is_open st (self_d self)) eqn:Ho.
  - destruct (sound_open_live _ _ Hs Ho) as [d Hd].
    destruct (l_xwii_close_open st _ d Ho Hd) as (st2 & Hc2 & _ & _ & Hcl).
    rewrite Hc in Hc2. by simplify_eq.
  - unfold l_xwii_close in Hc. rewrite Ho in Hc. by simplify_eq.
Qed.

Lemma zero_message_closes_the_handle_witness :
  let st := two_open (remote 7 7 burst5) (remote 7 7 gone_queue) in
  ∃ st',
    in_1_float 3 st (Xwii 2 10 2 (Some 10)) 0 = Some ([], Xwii 2 10 0 None, st')
    ∧ finalize st (Xwii 2 10 2 (Some 10)) = Some (Xwii 2 10 2 None, st')
    ∧ is_open st' 2 = false
    ∧ sound st'.
Proof.
  apply (zero_message_closes_the_handle 3
           (two_open (remote 7 7 burst5) (remote 7 7 gone_queue))
           (Xwii 2 10 2 (Some 10))).
  apply two_open_sound.
Defined.

(** ** One session at a time *)

(** The two shapes of the state after a poll on an open session. *)
Lemma l_xwii_poll_result st num d :
  is_open st num = true →
  heap st !! iface (dev st num) = Some d →
  ∃ vs st',
    l_xwii_poll st num = Some (vs, st')
    ∧ ((devh st' = devh st ∧ heap st' = heap st)
       ∨ ∃ w s',
           devh st' = devh (commit st num w s')
           ∧ heap st' = heap (commit st num w s')
           ∧ iface (s_dev s') = iface (dev st num)).
Proof.
  intros Ho Hd.
  destruct (l_xwii_poll_open st num d Ho Hd) as [(r & e & _ & ->)|(rv & ->)].
  - eexists _, _. split; [reflexivity|]. left.
    by destruct (negb (e =? EINTR)).
  - destruct (dispatch_loop_first_stop num (if_queue d)
                (Session (set_revents rv (dev st num)) d (stderr st)))
      as (s' & He & _ & Hi & _).
    simpl in Hi. rewrite He.
    eexists _, _. split; [reflexivity|]. right. by eexists _, s'.
Qed.

Lemma dev_other st st' a n h :
  1 ≤ a → 1 ≤ n → n ≠ a →
  devh st' = <[Z.to_nat (a - 1) := h]> (devh st) → dev st' n = dev st n.
Proof.
  intros Ha Hn Hne Hd. unfold dev. rewrite Hd.
  by rewrite list_lookup_insert_ne by lia.
Qed.

(** X16. Opening, closing or polling handle [a] on a sound table leaves
    every other session as it is: for each other handle [n] the table entry
    is unchanged, and if that slot is open, so is the interface object it
    points to (its queue, its LEDs, its opened interfaces). *)
Theorem other_sessions_are_untouched st a n :
  sound st → 1 ≤ n → n ≠ a →
  Forall
    (λ f : state → Z → option (list lua_value * state),
       ∃ vs st',
         f st a = Some (vs, st')
         ∧ dev st' n = dev st n
         ∧ (is_open st n = true →
            heap st' !! iface (dev st n) = heap st !! iface (dev st n)))
    [l_xwii_open; l_xwii_close; l_xwii_poll].
Proof.
  intros Hs Hn Hne. pose proof Hs as (Hlen & Hlive & Hdist).
  assert (∀ st', devh st' = devh st → dev st' n = dev st n) as Hsame.
  { intros st' He. unfold dev. by rewrite He. }
  assert (is_open st n = true → is_open st a = true →
          iface (dev st n) ≠ iface (dev st a)) as Hptr.
  { intros (_ & Hnn & Hln)%is_open_inv ([Ha _] & Hna & Hla)%is_open_inv He.
    pose proof (Hdist _ _ _ _ Hln Hla Hnn Hna He). lia. }
  repeat apply Forall_cons_2; [..|apply Forall_nil_2].
  - destruct (l_xwii_open_result st a Hlen)
      as (r & st' & Hopen & [(_ & Hd & Hh)|[(_ & Hr & Ho & Hh & p & Hd)|
                                             (_ & Hr & Ho & h & d & Hd & Hf & Hi & Hh)]]);
      eexists _, st'; (split; [exact Hopen|]).
    + split; [by apply Hsame|]. by rewrite Hh.
    + split; [|by rewrite Hh].
      apply (dev_other st st' a n (set_iface p (dev st a))); [lia|done..].
    + split; [apply (dev_other st st' a n h); [lia|done..]|].
      intros (_ & Hnn & Hln)%is_open_inv. rewrite Hh.
      apply lookup_insert_ne. intros He.
      destruct (Hlive _ _ Hln Hnn) as [x Hx].
      rewrite <- He, fresh_not_live in Hx. done.
  - destruct (is_open st a) eqn:Ho.
    + destruct (sound_open_live _ _ Hs Ho) as [d Hd].
      destruct (l_xwii_close_open st a d Ho Hd) as (st' & Hc & Hdh & Hh & _).
      destruct (is_open_inv _ _ Ho) as ([Ha _] & _).
      eexists _, st'. split; [exact Hc|].
      split; [by apply (dev_other st st' a n _ Ha Hn Hne Hdh)|].
      intros Hon. rewrite Hh. by apply lookup_delete_ne, not_eq_sym, Hptr.
    + exists [], st. split; [|done]. unfold l_xwii_close. by rewrite Ho.
  - destruct (is_open st a) eqn:Ho.
    + destruct (sound_open_live _ _ Hs Ho) as [d Hd].
      destruct (is_open_inv _ _ Ho) as ([Ha _] & _).
      destruct (l_xwii_poll_result st a d Ho Hd)
        as (vs & st' & Hp & [[Hdh Hh]|(w & s' & Hdh & Hh & Hi)]);
        eexists _, st'; (split; [exact Hp|]).
      * split; [by apply Hsame|]. by rewrite Hh.
      * split; [by apply (dev_other st st' a n _ Ha Hn Hne Hdh)|].
        intros Hon. rewrite Hh. simpl.
        by apply lookup_insert_ne, not_eq_sym, Hptr.
    + exists [LNil], st. split; [by apply closed_poll|done].
Qed.

Lemma other_sessions_are_untouched_witness :
  let st := two_open (remote 7 7 burst5) (remote 7 7 gone_queue) in
  Forall
    (λ f : state → Z → option (list lua_value * state),
       ∃ vs st',
         f st 2 = Some (vs, st')
         ∧ dev st' 1 = dev st 1
         ∧ (is_open st 1 = true →
            heap st' !! iface (dev st 1) = heap st !! iface (dev st 1)))
    [l_xwii_open; l_xwii_close; l_xwii_poll].
Proof.
  apply (other_sessions_are_untouched
           (two_open (remote 7 7 burst5) (remote 7 7 gone_queue)) 2 1);
    [apply two_open_sound|lia|lia].
Defined.

(** ** The devlist message *)

(** X17. With a monitor, the [devlist] method sends nothing when no device
    is connected and otherwise one [devlist] message to outlet 2 that holds
    the paths of all connected devices under the keys 1, 2, ... in
    enumeration order; it raises no error and changes nothing. *)
Theorem devlist_sends_the_paths st :
  monitor_ok st = true →
  in_1_devlist st
  = (Done
       (match sysfs st with
        | [] => []
        | _ =>
          [Outlet 2 "devlist"
             (LTable (imap (λ j ent, (Z.of_nat j + 1, LString ent))
                        (map dev_path (sysfs st))))]
        end), st).
Proof.
  intros Hm. unfold in_1_devlist. rewrite (l_xwii_list_monitor _ Hm). simpl.
  rewrite length_imap, length_map.
  by destruct (sysfs st).
Qed.

Lemma devlist_sends_the_paths_witness :
  in_1_devlist (two_open plain_remote balance_board)
  = (Done
       [Outlet 2 "devlist"
          (LTable [(1, LString hid1);
                   (2, LString "/sys/bus/hid/devices/0005:057E:0306.0002")])],
     two_open plain_remote balance_board).
Proof.
  apply (devlist_sends_the_paths (two_open plain_remote balance_board)).
  reflexivity.
Defined.
